(** * Verification of the partition consumer of kowl

    The development embeds [backend/pkg/kafka/partition_consumer.go]:
    the content classification [getValue], the filter closure built by
    [SetupInterpreter] and the consumption loop [Run].

    Go data is modelled as the program has it: byte slices are lists of
    [byte] (with [None] for the nil slice), [int64] counters are [Z] with
    their wrap-around written out, strings are [string].  The effects of
    [Run] (progress callbacks, channel sends, log lines, the deferred
    calls) are recorded as a trace of events; what the goroutine receives
    from its [select] statements is an explicit input list. *)

From Stdlib Require Import ZArith List String Ascii Bool Lia.
From Stdlib.Strings Require Import Byte.
From Stdlib Require Import DecimalString Zbitwise Sorted.
Import ListNotations.
Open Scope Z_scope.

(* ===================================================================== *)
(** ** Go base types *)
(* ===================================================================== *)

(** A Go [error]: [None] is [nil], [Some msg] carries [err.Error()]. *)
Definition error := option string.

(** A function returning [(A, error)]. *)
Inductive result (A : Type) : Type :=
| Ok (a : A)
| Err (msg : string).
Arguments Ok {A} a.
Arguments Err {A} msg.

(** A [[]byte]; [None] is the nil slice. *)
Definition slice := option (list byte).

Definition data (s : slice) : list byte :=
  match s with
  | Some l => l
  | None => []
  end.

(** [len(s)] *)
Definition len (s : slice) : Z := Z.of_nat (List.length (data s)).

(** [s == nil] *)
Definition isNil (s : slice) : bool :=
  match s with
  | Some _ => false
  | None => true
  end.

(** The numeric value of a byte. *)
Definition u8 (b : byte) : Z := Z.of_N (Byte.to_N b).

(** The byte of a value taken modulo 256. *)
Definition byte_of_Z (z : Z) : byte :=
  match Byte.of_N (Z.to_N (z mod 256)) with
  | Some b => b
  | None => x00
  end.

(** The bytes of a string, [[]byte(s)]. *)
Definition bytes_of_string (s : string) : list byte :=
  List.map byte_of_ascii (list_ascii_of_string s).

(** [int64(x)]: two's complement wrap-around to 64 bits. *)
Definition int64 (x : Z) : Z := (x + 2 ^ 63) mod 2 ^ 64 - 2 ^ 63.

(** [fmt.Sprintf("%v", n)] for an integer. *)
Definition fmt_int (n : Z) : string := NilZero.string_of_int (Z.to_int n).

(* ===================================================================== *)
(** ** [unicode/utf8]: [Valid] *)
(* ===================================================================== *)

Module utf8.

(** Continuation byte bounds, [locb] and [hicb]. *)
Definition locb : Z := 0x80.
Definition hicb : Z := 0xBF.

Definition in_range (lo hi : Z) (b : byte) : bool :=
  (lo <=? u8 b) && (u8 b <=? hi).

(** What [first] and [acceptRanges] give for a leading byte: the size of
    the sequence and the range accepted for its second byte; [None] for
    an illegal starter. *)
Definition starter (b : byte) : option (nat * (Z * Z)) :=
  let x := u8 b in
  if (0xC2 <=? x) && (x <=? 0xDF) then Some (2%nat, (locb, hicb))
  else if x =? 0xE0 then Some (3%nat, (0xA0, hicb))
  else if (0xE1 <=? x) && (x <=? 0xEC) then Some (3%nat, (locb, hicb))
  else if x =? 0xED then Some (3%nat, (locb, 0x9F))
  else if (0xEE <=? x) && (x <=? 0xEF) then Some (3%nat, (locb, hicb))
  else if x =? 0xF0 then Some (4%nat, (0x90, hicb))
  else if (0xF1 <=? x) && (x <=? 0xF3) then Some (4%nat, (locb, hicb))
  else if x =? 0xF4 then Some (4%nat, (locb, 0x8F))
  else None.

(** [utf8.Valid(p)] *)
Fixpoint Valid (p : list byte) : bool :=
  match p with
  | [] => true
  | p0 :: p1 =>
      if u8 p0 <? 0x80 then Valid p1
      else
        match starter p0 with
        | None => false
        | Some (size, (lo, hi)) =>
            match p1 with
            | [] => false
            | c1 :: p2 =>
                if negb (in_range lo hi c1) then false
                else if (size =? 2)%nat then Valid p2
                else
                  match p2 with
                  | [] => false
                  | c2 :: p3 =>
                      if negb (in_range locb hicb c2) then false
                      else if (size =? 3)%nat then Valid p3
                      else
                        match p3 with
                        | [] => false
                        | c3 :: p4 =>
                            if negb (in_range locb hicb c3) then false
                            else Valid p4
                        end
                  end
            end
        end
  end.

End utf8.

(* ===================================================================== *)
(** ** [encoding/base64]: [StdEncoding] *)
(* ===================================================================== *)

Module base64.

(** The standard alphabet, [encodeStd]. *)
Definition encodeStd : list byte :=
  bytes_of_string
    "ABCDEFGHIJKLMNOPQRSTUVWXYZabcdefghijklmnopqrstuvwxyz0123456789+/".

(** [StdPadding] *)
Definition padChar : byte := "=".

(** The character of a 6-bit value. *)
Definition enc (v : Z) : byte := nth (Z.to_nat (v mod 64)) encodeStd x00.

(** The 6-bit value of a character of the alphabet (the decode map). *)
Definition dec (c : byte) : option Z :=
  let x := u8 c in
  if (0x41 <=? x) && (x <=? 0x5A) then Some (x - 0x41)
  else if (0x61 <=? x) && (x <=? 0x7A) then Some (x - 0x61 + 26)
  else if (0x30 <=? x) && (x <=? 0x39) then Some (x - 0x30 + 52)
  else if x =? 0x2B then Some 62
  else if x =? 0x2F then Some 63
  else None.

(** [StdEncoding.EncodeToString(src)], as the bytes of the string. *)
Fixpoint EncodeToString (src : list byte) : list byte :=
  match src with
  | [] => []
  | [a] =>
      let v := Z.shiftl (u8 a) 16 in
      [enc (Z.shiftr v 18); enc (Z.shiftr v 12); padChar; padChar]
  | [a; b] =>
      let v := Z.lor (Z.shiftl (u8 a) 16) (Z.shiftl (u8 b) 8) in
      [enc (Z.shiftr v 18); enc (Z.shiftr v 12); enc (Z.shiftr v 6); padChar]
  | a :: b :: c :: rest =>
      let v := Z.lor (Z.lor (Z.shiftl (u8 a) 16) (Z.shiftl (u8 b) 8)) (u8 c) in
      enc (Z.shiftr v 18) :: enc (Z.shiftr v 12) :: enc (Z.shiftr v 6) :: enc v
        :: EncodeToString rest
  end.

(** [StdEncoding.DecodeString(s)] on input without line breaks: quanta
    of four characters, padding only in the last one. *)
Fixpoint DecodeString (s : list byte) : option (list byte) :=
  match s with
  | [] => Some []
  | c1 :: c2 :: c3 :: c4 :: rest =>
      match dec c1, dec c2 with
      | Some v1, Some v2 =>
          match dec c3, dec c4, rest with
          | Some v3, Some v4, _ =>
              let v := Z.lor (Z.lor (Z.lor (Z.shiftl v1 18) (Z.shiftl v2 12))
                                    (Z.shiftl v3 6)) v4 in
              match DecodeString rest with
              | Some out =>
                  Some (byte_of_Z (Z.shiftr v 16) :: byte_of_Z (Z.shiftr v 8)
                          :: byte_of_Z v :: out)
              | None => None
              end
          | Some v3, None, [] =>
              if Byte.eqb c4 padChar then
                let v := Z.lor (Z.lor (Z.shiftl v1 18) (Z.shiftl v2 12))
                               (Z.shiftl v3 6) in
                Some [byte_of_Z (Z.shiftr v 16); byte_of_Z (Z.shiftr v 8)]
              else None
          | None, None, [] =>
              if Byte.eqb c3 padChar && Byte.eqb c4 padChar then
                let v := Z.lor (Z.shiftl v1 18) (Z.shiftl v2 12) in
                Some [byte_of_Z (Z.shiftr v 16)]
              else None
          | _, _, _ => None
          end
      | _, _ => None
      end
  | _ => None
  end.

End base64.


(* ===================================================================== *)
(** ** [valyala/fastjson]: [Validate] *)
(* ===================================================================== *)

(** The validator is a library of its own; the partition consumer only
    calls it.  It is modelled here by the byte-level JSON grammar it
    checks (RFC 8259): the shape of [validateValue], [validateObject],
    [validateArray], [validateString] and [validateNumber]. *)
Module fastjson.

Definition isWS (c : byte) : bool :=
  Byte.eqb c x20 || Byte.eqb c x0a || Byte.eqb c x09 || Byte.eqb c x0d.

Fixpoint skipWS (s : list byte) : list byte :=
  match s with
  | c :: r => if isWS c then skipWS r else s
  | [] => []
  end.

Definition isDigit (c : byte) : bool := (0x30 <=? u8 c) && (u8 c <=? 0x39).

Definition isHex (c : byte) : bool :=
  isDigit c || ((0x41 <=? u8 c) && (u8 c <=? 0x46))
            || ((0x61 <=? u8 c) && (u8 c <=? 0x66)).

Fixpoint skipDigits (s : list byte) : nat * list byte :=
  match s with
  | c :: r => if isDigit c then let (n, t) := skipDigits r in (S n, t) else (O, s)
  | [] => (O, [])
  end.

(** The rest of the input after the literal [lit], if it starts with it. *)
Fixpoint stripPrefix (lit s : list byte) : option (list byte) :=
  match lit, s with
  | [], _ => Some s
  | l :: lit', c :: s' => if Byte.eqb l c then stripPrefix lit' s' else None
  | _ :: _, [] => None
  end.

(** After the opening quote: up to the closing quote, with the escape
    sequences of the grammar and no control character. *)
Fixpoint validateString (s : list byte) : option (list byte) :=
  match s with
  | [] => None
  | c :: r =>
      if Byte.eqb c x22 then Some r
      else if Byte.eqb c "\" then
        match r with
        | [] => None
        | e :: r' =>
            if existsb (Byte.eqb e) [x22; "\"; "/"; "b"; "f"; "n"; "r"; "t"]%byte
            then validateString r'
            else if Byte.eqb e "u" then
              match r' with
              | h1 :: h2 :: h3 :: h4 :: r'' =>
                  if isHex h1 && isHex h2 && isHex h3 && isHex h4
                  then validateString r'' else None
              | _ => None
              end
            else None
        end
      else if u8 c <? 0x20 then None
      else validateString r
  end.

Definition validateExponent (s : list byte) : option (list byte) :=
  match s with
  | c :: r =>
      if Byte.eqb c "e" || Byte.eqb c "E" then
        let r1 := match r with
                  | sg :: r' => if Byte.eqb sg "+" || Byte.eqb sg "-" then r' else r
                  | [] => r
                  end in
        match skipDigits r1 with
        | (O, _) => None
        | (_, t) => Some t
        end
      else Some s
  | [] => Some s
  end.

Definition validateNumber (s : list byte) : option (list byte) :=
  let s1 := match s with
            | c :: r => if Byte.eqb c "-" then r else s
            | [] => s
            end in
  match skipDigits s1 with
  | (O, _) => None
  | (n, t) =>
      let leadingZero := match s1 with
                         | c :: _ => Byte.eqb c "0"
                         | [] => false
                         end in
      if leadingZero && negb (n =? 1)%nat then None
      else
        match t with
        | c :: r =>
            if Byte.eqb c "." then
              match skipDigits r with
              | (O, _) => None
              | (_, t') => validateExponent t'
              end
            else validateExponent t
        | [] => Some t
        end
  end.

(** [validateValue] and the loops of [validateArray] and
    [validateObject]; [n] bounds the number of nested calls, each of
    which consumes at least one byte. *)
Fixpoint validateValue (n : nat) (s : list byte) {struct n} : option (list byte) :=
  match n with
  | O => None
  | S n' =>
      match s with
      | [] => None
      | c :: r =>
          if Byte.eqb c "{" then
            match skipWS r with
            | [] => None
            | c' :: r' => if Byte.eqb c' "}" then Some r' else validateMembers n' (c' :: r')
            end
          else if Byte.eqb c "[" then
            match skipWS r with
            | [] => None
            | c' :: r' => if Byte.eqb c' "]" then Some r' else validateElements n' (c' :: r')
            end
          else if Byte.eqb c x22 then validateString r
          else if Byte.eqb c "t" then stripPrefix (bytes_of_string "true") s
          else if Byte.eqb c "f" then stripPrefix (bytes_of_string "false") s
          else if Byte.eqb c "n" then stripPrefix (bytes_of_string "null") s
          else validateNumber s
      end
  end
with validateElements (n : nat) (s : list byte) {struct n} : option (list byte) :=
  match n with
  | O => None
  | S n' =>
      match validateValue n' (skipWS s) with
      | None => None
      | Some t =>
          match skipWS t with
          | [] => None
          | c :: r =>
              if Byte.eqb c "," then validateElements n' r
              else if Byte.eqb c "]" then Some r
              else None
          end
      end
  end
with validateMembers (n : nat) (s : list byte) {struct n} : option (list byte) :=
  match n with
  | O => None
  | S n' =>
      match skipWS s with
      | [] => None
      | q :: r =>
          if negb (Byte.eqb q x22) then None
          else
            match validateString r with
            | None => None
            | Some t =>
                match skipWS t with
                | [] => None
                | c :: r1 =>
                    if negb (Byte.eqb c ":") then None
                    else
                      match validateValue n' (skipWS r1) with
                      | None => None
                      | Some t1 =>
                          match skipWS t1 with
                          | [] => None
                          | c1 :: r2 =>
                              if Byte.eqb c1 "," then validateMembers n' r2
                              else if Byte.eqb c1 "}" then Some r2
                              else None
                          end
                      end
                end
            end
      end
  end.

(** [fastjson.Validate(s)]; [None] is the nil error. *)
Definition Validate (s : list byte) : error :=
  match validateValue (S (List.length s)) (skipWS s) with
  | None => Some "cannot parse JSON"%string
  | Some tail =>
      match skipWS tail with
      | [] => None
      | _ :: _ => Some "unexpected tail"%string
      end
  end.

End fastjson.


(* ===================================================================== *)
(** ** The data of the partition consumer *)
(* ===================================================================== *)

(** [type valueType string] with its constants; the empty string is the
    type of an empty payload. *)
Definition valueType := string.
Definition valueTypeJSON : valueType := "json"%string.
Definition valueTypeXML : valueType := "xml"%string.
Definition valueTypeText : valueType := "text"%string.
Definition valueTypeBinary : valueType := "binary"%string.

(** [time.Time], by its seconds since the epoch and its nanoseconds. *)
Module time.
Record Time := { Unix : Z; Nanosecond : Z }.
End time.

(** [DirectEmbedding]: the two fields the consumer fills in. *)
Module DirectEmbedding.
Record t := { ValueType : valueType; Value : slice }.
End DirectEmbedding.

Module TopicMessage.
Record t := {
  PartitionID : Z;
  Offset : Z;
  Timestamp : Z;
  Key : DirectEmbedding.t;
  KeyType : string;
  Value : DirectEmbedding.t;
  ValueType : string;
  Size : Z;
  IsValueNull : bool
}.
End TopicMessage.

Module PartitionConsumeRequest.
Record t := {
  PartitionID : Z;
  IsDrained : bool;
  LowWaterMark : Z;
  HighWaterMark : Z;
  StartOffset : Z;
  EndOffset : Z;
  MaxMessageCount : Z
}.
End PartitionConsumeRequest.

Module interpreterArguments.
Record t := {
  PartitionID : Z;
  Offset : Z;
  Timestamp : time.Time;
  Key : DirectEmbedding.t;
  Value : DirectEmbedding.t
}.
End interpreterArguments.

(** [sarama.ConsumerMessage]: the fields the loop reads. *)
Module ConsumerMessage.
Record t := {
  Key : slice;
  Value : slice;
  Partition : Z;
  Offset : Z;
  Timestamp : time.Time
}.
End ConsumerMessage.

(** [PartitionConsumer]: the parameters; the logger, the channels, the
    progress object and the broker client are the events and inputs of
    [Run] below. *)
Module PartitionConsumer.
Record t := {
  TopicName : string;
  Req : PartitionConsumeRequest.t;
  FilterInterpreterCode : string
}.
End PartitionConsumer.

(* ===================================================================== *)
(** ** The libraries behind the consumer *)
(* ===================================================================== *)

(** The payload decoders: [fastjson.Validate(string(trimmed))] and
    [xj.Convert(strings.NewReader(string(trimmed)))] followed by
    [json.Bytes()]. *)
Class Decoders := {
  Validate : list byte -> error;
  Convert : list byte -> result (list byte)
}.

(** [DirectEmbedding.Parse], which gives the Go value handed to the
    script; it is declared next to [DirectEmbedding], outside this file. *)
Class Parser := {
  Native : Type;
  Parse : DirectEmbedding.t -> result Native
}.

(** A value given to [panic]. *)
Inductive PanicValue :=
| PanicString (s : string)
| PanicOther (descr : string).

(** The script engine, [robertkrimen/otto].  A virtual machine is a state
    that every call may change.  A call returns a value, returns an error,
    or is unwound by a panic: this is how the function sent on
    [vm.Interrupt] by the timer goroutine of [isMessageOk] ends a call. *)
Inductive CallOutcome (Value : Type) :=
| CallValue (val : Value)
| CallError (msg : string)
| CallPanic (caught : PanicValue).
Arguments CallValue {Value} val.
Arguments CallError {Value} msg.
Arguments CallPanic {Value} caught.

(** The arguments of the script function: [partitionId], [offset],
    [timestamp], [key] and [value]. *)
Definition CallArguments {P : Parser} : Type :=
  (Z * Z * time.Time * Native * Native)%type.

Class Otto {P : Parser} := {
  otto_VM : Type;
  otto_Object : Type;
  otto_Value : Type;
  otto_New : otto_VM;
  otto_Run : otto_VM -> string -> otto_VM * error;
  otto_GetObject : otto_VM -> string -> result otto_Object;
  otto_Call : otto_Object -> string -> CallArguments -> otto_VM ->
              CallOutcome otto_Value * otto_VM;
  otto_IsBoolean : otto_Value -> bool;
  otto_ToBoolean : otto_Value -> result bool
}.

(* ===================================================================== *)
(** ** [getValue] *)
(* ===================================================================== *)

(** [bytes.TrimLeft(s, cutset)] *)
Fixpoint TrimLeft (s cutset : list byte) : list byte :=
  match s with
  | c :: r => if existsb (Byte.eqb c) cutset then TrimLeft r cutset else s
  | [] => []
  end.

(** The cutset [" \t\r\n"]. *)
Definition whitespace : list byte := [x20; x09; x0d; x0a].

Section GetValue.
Context {D : Decoders}.

Definition embed (t : valueType) (v : slice) : valueType * DirectEmbedding.t :=
  (t, {| DirectEmbedding.ValueType := t; DirectEmbedding.Value := v |}).

Definition getValue (value : slice) : valueType * DirectEmbedding.t :=
  if len value =? 0 then embed ""%string value
  else
    let trimmed := TrimLeft (data value) whitespace in
    match trimmed with
    | [] => embed valueTypeText value
    | trimmed0 :: _ =>
        let startsWithJSON := Byte.eqb trimmed0 "[" || Byte.eqb trimmed0 "{" in
        let json :=
          if startsWithJSON then
            match Validate trimmed with
            | None => Some (embed valueTypeJSON (Some trimmed))
            | Some _ => None
            end
          else None in
        match json with
        | Some r => r
        | None =>
            let startsWithXML := Byte.eqb trimmed0 "<" in
            let xml :=
              if startsWithXML then
                match Convert trimmed with
                | Ok json => Some (embed valueTypeXML (Some json))
                | Err _ => None
                end
              else None in
            match xml with
            | Some r => r
            | None =>
                let isUTF8 := utf8.Valid (data value) in
                if isUTF8 then embed valueTypeText value
                else
                  let b64 := base64.EncodeToString (data value) in
                  embed valueTypeBinary (Some b64)
            end
        end
    end.

End GetValue.

(* ===================================================================== *)
(** ** [SetupInterpreter] and the filter closure *)
(* ===================================================================== *)

(** What a Go function with results [(isOk bool, err error)] does: it
    returns, or a panic leaves it. *)
Inductive FilterReturn :=
| Return (isOk : bool) (err : error)
| Panic (caught : PanicValue).

Definition errTimeout : string := "interpreter execution has taken too long".

(** [caught == errTimeout] on an interface value. *)
Definition isTimeoutPanic (caught : PanicValue) : bool :=
  match caught with
  | PanicString s => String.eqb s errTimeout
  | PanicOther _ => false
  end.

Section Interpreter.
Context {P : Parser} {E : Otto}.

(** The closure [isMessageOk].  [interpreter] and [vm] are the variables
    it captures; the machine after the call is returned with the result.

    The deferred [recover] turns the panic of the interrupt function
    into the error [errTimeout], the named results being [false] and the
    error at that point; any other panic goes on.  The goroutine that
    waits on the 400 ms timer and on [ctx.Done()] runs beside this code
    and is seen here only through the outcome of the call. *)
Definition isMessageOk (interpreter : otto_Object) (vm : otto_VM)
    (args : interpreterArguments.t) : FilterReturn * otto_VM :=
  let where_ :=
    ("(partition '" ++ fmt_int (interpreterArguments.PartitionID args)
       ++ "', offset '" ++ fmt_int (interpreterArguments.Offset args) ++ "')")%string in
  match Parse (interpreterArguments.Key args) with
  | Err _ => (Return false (Some ("failed to parse key " ++ where_)%string), vm)
  | Ok key =>
      match Parse (interpreterArguments.Value args) with
      | Err _ => (Return false (Some ("failed to parse value " ++ where_)%string), vm)
      | Ok value =>
          let (outcome, vm') :=
            otto_Call interpreter "isMessageOk"
              (interpreterArguments.PartitionID args,
               interpreterArguments.Offset args,
               interpreterArguments.Timestamp args, key, value) vm in
          match outcome with
          | CallPanic caught =>
              if isTimeoutPanic caught
              then (Return false (Some errTimeout), vm')
              else (Panic caught, vm')
          | CallError msg =>
              (Return false
                 (Some ("failed to evaluate javascript code: " ++ msg)%string), vm')
          | CallValue val =>
              match otto_ToBoolean val with
              | Err msg =>
                  (Return false
                     (Some ("failed to cast return type to boolean: " ++ msg)%string),
                   vm')
              | Ok isOk => (Return isOk None, vm')
              end
          end
      end
  end.

(** The function [SetupInterpreter] returns: the dummy that allows all
    messages, or [isMessageOk] with what it captured. *)
Inductive Filter :=
| AcceptAll
| Script (interpreter : otto_Object) (vm : otto_VM).

Definition wrapCode (code : string) : string :=
  ("interpreter = {isMessageOk: function(partitionId, offset, timestamp, key, value) {"
     ++ code ++ "}}")%string.

Definition SetupInterpreter (p : PartitionConsumer.t) : result Filter :=
  if String.eqb (PartitionConsumer.FilterInterpreterCode p) "" then Ok AcceptAll
  else
    let vm := otto_New in
    let code := wrapCode (PartitionConsumer.FilterInterpreterCode p) in
    match otto_Run vm code with
    | (_, Some msg) =>
        Err ("failed to compile given interpreter code: " ++ msg)%string
    | (vm1, None) =>
        match otto_GetObject vm1 "interpreter" with
        | Err msg => Err msg
        | Ok interpreter => Ok (Script interpreter vm1)
        end
    end.

(** One call [isMessageOK(args)] of the returned function. *)
Definition callFilter (f : Filter) (args : interpreterArguments.t)
    : FilterReturn * Filter :=
  match f with
  | AcceptAll => (Return true None, AcceptAll)
  | Script interpreter vm =>
      let (r, vm') := isMessageOk interpreter vm args in
      (r, Script interpreter vm')
  end.

End Interpreter.

(* ===================================================================== *)
(** ** [Run] *)
(* ===================================================================== *)

Inductive LogLevel := LogDebug | LogInfo | LogError.

(** What the task does to the outside, in order. *)
Inductive Event :=
| Log (level : LogLevel) (msg : string)  (* p.Logger *)
| OnError (msg : string)                 (* p.Progress.OnError(msg) *)
| OnMessageConsumed (size : Z)           (* p.Progress.OnMessageConsumed(size) *)
| Send (m : TopicMessage.t)              (* p.MessageCh <- topicMessage *)
| Close                                  (* pConsumer.Close() *)
| Done.                                  (* p.DoneCh <- struct{}{} *)

(** The inner [select], entered with an accepted message. *)
Inductive SendCase :=
| Sent              (* case p.MessageCh <- topicMessage *)
| SendCtxDone.      (* case <-ctx.Done() *)

(** The outer [select].  [Message m s] is a record read from
    [pConsumer.Messages()], with the case [s] the inner [select] takes if
    the record is accepted. *)
Inductive SelectCase :=
| Message (m : ConsumerMessage.t) (s : SendCase)
| ChannelClosed     (* m, ok := <-pConsumer.Messages() with ok false *)
| CtxDone.          (* case <-ctx.Done() *)

(** What the broker client and the channels do in one execution. *)
Record World := {
  consumeErr : error;            (* the error of ConsumePartition *)
  closeErr : error;              (* the error of pConsumer.Close *)
  selects : list SelectCase      (* what the selects receive, in order *)
}.

(** How far the goroutine got: it returned, a panic left it, or it waits
    in the outer [select] for input that [selects] does not hold. *)
Inductive Outcome :=
| Returned
| Panicked (caught : PanicValue)
| Waiting.

Definition emit (evs : list Event) (r : list Event * Outcome) : list Event * Outcome :=
  (evs ++ fst r, snd r).

(** A [defer]: its events follow when the function is left. *)
Definition defer (evs : list Event) (r : list Event * Outcome) : list Event * Outcome :=
  match snd r with
  | Waiting => r
  | _ => (fst r ++ evs, snd r)
  end.

Section Run.
Context {D : Decoders} {P : Parser} {E : Otto}.

(** The [TopicMessage] built for a record. *)
Definition topicMessage (m : ConsumerMessage.t) : TopicMessage.t :=
  let (vType, value) := getValue (ConsumerMessage.Value m) in
  let (kType, key) := getValue (ConsumerMessage.Key m) in
  {| TopicMessage.PartitionID := ConsumerMessage.Partition m;
     TopicMessage.Offset := ConsumerMessage.Offset m;
     TopicMessage.Timestamp := time.Unix (ConsumerMessage.Timestamp m);
     TopicMessage.Key := key;
     TopicMessage.KeyType := kType;
     TopicMessage.Value := value;
     TopicMessage.ValueType := vType;
     TopicMessage.Size := len (ConsumerMessage.Value m);
     TopicMessage.IsValueNull := isNil (ConsumerMessage.Value m) |}.

(** The arguments of the filter for a record. *)
Definition filterArguments (m : ConsumerMessage.t) : interpreterArguments.t :=
  let (vType, value) := getValue (ConsumerMessage.Value m) in
  let (kType, key) := getValue (ConsumerMessage.Key m) in
  {| interpreterArguments.PartitionID := ConsumerMessage.Partition m;
     interpreterArguments.Offset := ConsumerMessage.Offset m;
     interpreterArguments.Timestamp := ConsumerMessage.Timestamp m;
     interpreterArguments.Key := key;
     interpreterArguments.Value := value |}.

(** [len(m.Key) + len(m.Value)], an [int]; it is converted with [int64]
    where it is reported, [int] being 64 bits wide. *)
Definition messageSize (m : ConsumerMessage.t) : Z :=
  len (ConsumerMessage.Key m) + len (ConsumerMessage.Value m).

(** The condition of the last [if] of an iteration. *)
Definition reachedEnd (req : PartitionConsumeRequest.t) (m : ConsumerMessage.t)
    (messageCount : Z) : bool :=
  (PartitionConsumeRequest.EndOffset req <=? ConsumerMessage.Offset m)
  || (messageCount =? PartitionConsumeRequest.MaxMessageCount req).

(** The [for] loop of [Run], from the state [isMessageOK], [messageCount]. *)
Fixpoint loop (p : PartitionConsumer.t) (isMessageOK : Filter) (messageCount : Z)
    (inputs : list SelectCase) : list Event * Outcome :=
  match inputs with
  | [] => ([], Waiting)
  | CtxDone :: _ =>
      ([Log LogDebug "consume request aborted because context has been cancelled"],
       Returned)
  | ChannelClosed :: _ =>
      ([Log LogError "partition Consumer message channel has unexpectedly closed";
        OnError ("partition Consumer (partitionId="
                 ++ fmt_int (PartitionConsumeRequest.PartitionID (PartitionConsumer.Req p))
                 ++ ") failed to get the next message (see server log)")%string],
       Returned)
  | Message m s :: rest =>
      emit [OnMessageConsumed (int64 (messageSize m))]
        (let (r, isMessageOK') := callFilter isMessageOK (filterArguments m) in
         match r with
         | Panic caught => ([], Panicked caught)
         | Return _ (Some _) =>
             ([Log LogInfo "failed to check if message is ok";
               OnError ("failed to check if message is ok (partition: '"
                        ++ fmt_int (ConsumerMessage.Partition m) ++ "', offset: '"
                        ++ fmt_int (ConsumerMessage.Offset m) ++ "')")%string],
              Returned)
         | Return isOK None =>
             let messageCount' :=
               if isOK then int64 (messageCount + 1) else messageCount in
             let continue_ :=
               if reachedEnd (PartitionConsumer.Req p) m messageCount'
               then ([], Returned)
               else loop p isMessageOK' messageCount' rest in
             if isOK then
               match s with
               | SendCtxDone => ([], Returned)
               | Sent => emit [Send (topicMessage m)] continue_
               end
             else continue_
         end)
  end.

(** The deferred function that closes the partition consumer. *)
Definition deferredClose (w : World) : list Event :=
  Close :: match closeErr w with
           | Some _ => [Log LogError "failed to close partition consumer"]
           | None => []
           end.

(** The statements of [Run] after its first [defer]: the partition is
    opened; from then on its closing is deferred; the interpreter is set
    up and the loop runs. *)
Definition consume (p : PartitionConsumer.t) (w : World) : list Event * Outcome :=
  match consumeErr w with
  | Some msg =>
      ([Log LogError "couldn't consume partition";
        OnError ("couldn't consume partition "
                 ++ fmt_int (PartitionConsumeRequest.PartitionID (PartitionConsumer.Req p))
                 ++ ": " ++ msg)%string],
       Returned)
  | None =>
      defer (deferredClose w)
        (match SetupInterpreter p with
         | Err msg =>
             ([Log LogError "failed to setup interpreter";
               OnError ("failed to setup interpreter: " ++ msg)%string],
              Returned)
         | Ok isMessageOK => loop p isMessageOK 0 (selects w)
         end)
  end.

(** [Run]: the write to [DoneCh] is deferred first, so it is the last
    thing the goroutine does. *)
Definition Run (p : PartitionConsumer.t) (w : World) : list Event * Outcome :=
  defer [Done] (consume p w).

End Run.

(* ===================================================================== *)
(** ** Reading a trace *)
(* ===================================================================== *)

(** The messages sent on [MessageCh], in order. *)
Fixpoint sends (tr : list Event) : list TopicMessage.t :=
  match tr with
  | [] => []
  | Send m :: r => m :: sends r
  | _ :: r => sends r
  end.

(** The byte counts given to [OnMessageConsumed], in order. *)
Fixpoint consumed (tr : list Event) : list Z :=
  match tr with
  | [] => []
  | OnMessageConsumed n :: r => n :: consumed r
  | _ :: r => consumed r
  end.

(** The messages given to [OnError], in order. *)
Fixpoint errors (tr : list Event) : list string :=
  match tr with
  | [] => []
  | OnError msg :: r => msg :: errors r
  | _ :: r => errors r
  end.

(** How many times the task wrote to [DoneCh]. *)
Fixpoint doneCount (tr : list Event) : nat :=
  match tr with
  | [] => O
  | Done :: r => S (doneCount r)
  | _ :: r => doneCount r
  end.

(** The events of a trace that report a record or send a message. *)
Definition isProgress (e : Event) : bool :=
  match e with
  | OnMessageConsumed _ | Send _ => true
  | _ => false
  end.

(** The records among some select cases, in order. *)
Fixpoint delivered (inputs : list SelectCase) : list ConsumerMessage.t :=
  match inputs with
  | [] => []
  | Message m _ :: r => m :: delivered r
  | _ :: r => delivered r
  end.

(** A record that is read and, if accepted, sent without cancellation. *)
Definition deliver (m : ConsumerMessage.t) : SelectCase := Message m Sent.

Section Reading.
Context {D : Decoders} {P : Parser} {E : Otto}.

(** What the loop shows of a record: its byte count, then the message
    if the record is sent. *)
Definition block (m : ConsumerMessage.t) (sent : bool) : list Event :=
  OnMessageConsumed (int64 (messageSize m))
    :: if sent then [Send (topicMessage m)] else [].

(** The report of the loop when the filter returns an error. *)
Definition filterFailure (m : ConsumerMessage.t) : list Event :=
  [OnMessageConsumed (int64 (messageSize m));
   Log LogInfo "failed to check if message is ok";
   OnError ("failed to check if message is ok (partition: '"
            ++ fmt_int (ConsumerMessage.Partition m) ++ "', offset: '"
            ++ fmt_int (ConsumerMessage.Offset m) ++ "')")%string].

(** The call as [isMessageOk] makes it. *)
Definition scriptCall (interpreter : otto_Object) (vm : otto_VM)
    (args : interpreterArguments.t) (key value : Native)
    : CallOutcome otto_Value * otto_VM :=
  otto_Call interpreter "isMessageOk"
    (interpreterArguments.PartitionID args, interpreterArguments.Offset args,
     interpreterArguments.Timestamp args, key, value) vm.

(** The filter answers [accept m] on every record [m], without error,
    whatever the state of its machine. *)
Definition decides (f : Filter) (accept : ConsumerMessage.t -> bool) : Prop :=
  match f with
  | AcceptAll => forall m, accept m = true
  | Script interpreter _ =>
      forall vm m,
        fst (isMessageOk interpreter vm (filterArguments m)) = Return (accept m) None
  end.

(** The number of accepted records among [ms]. *)
Definition acceptedCount (accept : ConsumerMessage.t -> bool)
    (ms : list ConsumerMessage.t) : Z :=
  Z.of_nat (List.length (filter accept ms)).

(** The stop condition holds after the record of index [i] of [rs], the
    count of accepted messages being [count] before [rs]. *)
Definition stopsAt (req : PartitionConsumeRequest.t)
    (accept : ConsumerMessage.t -> bool) (count : Z)
    (rs : list ConsumerMessage.t) (i : nat) : Prop :=
  exists m,
    nth_error rs i = Some m
    /\ (PartitionConsumeRequest.EndOffset req <= ConsumerMessage.Offset m
        \/ count + acceptedCount accept (firstn (S i) rs)
           = PartitionConsumeRequest.MaxMessageCount req).

(** The index of the first record of [rs] after which the stop condition
    holds. *)
Fixpoint stopPoint (req : PartitionConsumeRequest.t)
    (accept : ConsumerMessage.t -> bool) (count : Z)
    (rs : list ConsumerMessage.t) : option nat :=
  match rs with
  | [] => None
  | m :: rest =>
      let count' := if accept m then count + 1 else count in
      if reachedEnd req m count' then Some O
      else option_map S (stopPoint req accept count' rest)
  end.

End Reading.

(** The first two tests of [getValue] on a payload: whether it is taken
    as JSON, and whether it is taken as XML. *)
Section Tests.
Context {D : Decoders}.

Definition acceptedAsJSON (value : slice) : bool :=
  match TrimLeft (data value) whitespace with
  | [] => false
  | c :: rest =>
      (Byte.eqb c "[" || Byte.eqb c "{")
      && match Validate (c :: rest) with
         | None => true
         | Some _ => false
         end
  end.

Definition convertedAsXML (value : slice) : bool :=
  match TrimLeft (data value) whitespace with
  | [] => false
  | c :: rest =>
      Byte.eqb c "<"
      && match Convert (c :: rest) with
         | Ok _ => true
         | Err _ => false
         end
  end.

End Tests.

(* ===================================================================== *)
(** ** Instances on which the model runs *)
(* ===================================================================== *)

(** Decoders for payloads that hold no XML: the JSON validator above, and
    a converter that is never reached unless the first significant byte is
    ['<'], where it reports an error.  The XML conversion itself is not
    part of this development. *)
Definition jsonDecoders : Decoders :=
  {| Validate := fastjson.Validate;
     Convert := fun _ => Err "xml: conversion not modelled"%string |}.

(** A parser that hands the embedding to the script as it is. *)
Definition embeddingParser : Parser :=
  {| Native := DirectEmbedding.t; Parse := fun e => Ok e |}.

(** The values of a script, numbers being restricted to the integers. *)
Inductive JSValue :=
| JSUndefined
| JSNull
| JSBoolean (b : bool)
| JSNumber (n : Z)
| JSString (s : string)
| JSObject.

Definition JSIsBoolean (v : JSValue) : bool :=
  match v with
  | JSBoolean _ => true
  | _ => false
  end.

(** [Value.ToBoolean] as the engine documents it: [ToValue(0)] and
    [ToValue("")] give [false], [ToValue(1)] and [ToValue("Nothing
    happens")] give [true]; [undefined] and [null] give [false], an object
    gives [true].  No value of this type makes the conversion fail. *)
Definition JSToBoolean (v : JSValue) : result bool :=
  match v with
  | JSUndefined => Ok false
  | JSNull => Ok false
  | JSBoolean b => Ok b
  | JSNumber n => Ok (negb (n =? 0))
  | JSString s => Ok (negb (String.eqb s ""))
  | JSObject => Ok true
  end.

(** An engine whose compiled script is the function [body] of the call
    arguments and keeps no state between calls, with the conversion
    [toBoolean]. *)
Definition scriptEngineWith (toBoolean : JSValue -> result bool)
    (body : @CallArguments embeddingParser -> CallOutcome JSValue)
    : @Otto embeddingParser :=
  {| otto_VM := unit;
     otto_Object := unit;
     otto_Value := JSValue;
     otto_New := tt;
     otto_Run := fun vm _ => (vm, None);
     otto_GetObject := fun _ _ => Ok tt;
     otto_Call := fun _ _ args vm => (body args, vm);
     otto_IsBoolean := JSIsBoolean;
     otto_ToBoolean := toBoolean |}.

Definition scriptEngine := scriptEngineWith JSToBoolean.

(** The engine of a script that returns the value [v] on every record. *)
Definition returning (v : JSValue) : @Otto embeddingParser :=
  scriptEngine (fun _ => CallValue v).

(** An engine on which the script does not compile. *)
Definition syntaxErrorEngine : @Otto embeddingParser :=
  {| otto_VM := unit;
     otto_Object := unit;
     otto_Value := JSValue;
     otto_New := tt;
     otto_Run := fun vm _ => (vm, Some "SyntaxError"%string);
     otto_GetObject := fun _ _ => Ok tt;
     otto_Call := fun _ _ _ vm => (CallValue JSUndefined, vm);
     otto_IsBoolean := JSIsBoolean;
     otto_ToBoolean := JSToBoolean |}.

(** A script that accepts every record. *)
Definition acceptEngine : @Otto embeddingParser := returning (JSBoolean true).

(** A script that returns the string [yes]. *)
Definition yesEngine : @Otto embeddingParser := returning (JSString "yes").

(** The bytes of a string, for the examples. *)
Definition B (s : string) : slice := Some (bytes_of_string s).

(** A record of partition 0 with a key and a value given as strings. *)
Definition record (offset : Z) (key value : string) : ConsumerMessage.t :=
  {| ConsumerMessage.Key := B key;
     ConsumerMessage.Value := B value;
     ConsumerMessage.Partition := 0;
     ConsumerMessage.Offset := offset;
     ConsumerMessage.Timestamp :=
       {| time.Unix := 1600000000 + offset; time.Nanosecond := 0 |} |}.

(** Ten records at the offsets 10 to 19. *)
Definition tenRecords : list ConsumerMessage.t :=
  map (fun offset => record offset "key" "value")
      [10; 11; 12; 13; 14; 15; 16; 17; 18; 19].

(** A consumer of the topic [orders] for the offsets from [startOffset] to
    [endOffset], at most [maxMessageCount] messages, with the filter
    [code]. *)
Definition consumer (code : string) (startOffset endOffset maxMessageCount : Z)
    : PartitionConsumer.t :=
  {| PartitionConsumer.TopicName := "orders";
     PartitionConsumer.Req :=
       {| PartitionConsumeRequest.PartitionID := 0;
          PartitionConsumeRequest.IsDrained := false;
          PartitionConsumeRequest.LowWaterMark := 0;
          PartitionConsumeRequest.HighWaterMark := 1000;
          PartitionConsumeRequest.StartOffset := startOffset;
          PartitionConsumeRequest.EndOffset := endOffset;
          PartitionConsumeRequest.MaxMessageCount := maxMessageCount |};
     PartitionConsumer.FilterInterpreterCode := code |}.

(** A broker on which the partition opens and closes without error. *)
Definition healthy (inputs : list SelectCase) : World :=
  {| consumeErr := None; closeErr := None; selects := inputs |}.

(** The JSON object with the key [k] and a string of the single byte
    [0xff]: [{], the quoted key, [:], the quoted byte, [}]. *)
Definition objectWithByteFF : slice :=
  Some (bytes_of_string "{" ++ [x22; x6b; x22; x3a; x22; xff; x22]
          ++ bytes_of_string "}").

(** How many times the partition consumer was closed. *)
Fixpoint closeCount (tr : list Event) : nat :=
  match tr with
  | [] => 0%nat
  | Close :: r => S (closeCount r)
  | _ :: r => closeCount r
  end.

(** The world [w] with other inputs for the selects. *)
Definition withInputs (w : World) (inputs : list SelectCase) : World :=
  {| consumeErr := consumeErr w; closeErr := closeErr w; selects := inputs |}.

(** The characters of a base64 text: the alphabet and the padding. *)
Definition base64Chars : list byte := base64.padChar :: base64.encodeStd.

(** The JSON bytes of an object with the key [a] and an empty string. *)
Definition emptyElementJSON : list byte :=
  bytes_of_string "{" ++ [x22; x61; x22; x3a; x20; x22; x22] ++ bytes_of_string "}".

(** Decoders whose converter knows one document, the empty element
    [<a/>], and reports an error on every other input. *)
Definition xmlDecoders : Decoders :=
  {| Validate := fastjson.Validate;
     Convert := fun s =>
       if list_eq_dec Byte.byte_eq_dec s (bytes_of_string "<a/>")
       then Ok emptyElementJSON
       else Err "xml: conversion not modelled"%string |}.

(** A script whose call is unwound by the interrupt function. *)
Definition timeoutEngine : @Otto embeddingParser :=
  scriptEngine (fun _ => CallPanic (PanicString errTimeout)).

(** A script whose call ends in a panic that is not the timeout. *)
Definition panicEngine : @Otto embeddingParser :=
  scriptEngine (fun _ => CallPanic (PanicOther "runtime error")).

(* ===================================================================== *)
(** * Properties *)
(* ===================================================================== *)

(** ** Bytes and bit fields *)

Lemma u8_range (b : byte) : 0 <= u8 b < 256.
Proof. unfold u8. pose proof (Byte.to_N_bounded b). lia. Qed.

Lemma byte_of_Z_u8 (b : byte) : byte_of_Z (u8 b) = b.
Proof.
  unfold byte_of_Z. rewrite Z.mod_small by apply u8_range.
  unfold u8. rewrite N2Z.id, Byte.of_to_N. reflexivity.
Qed.

Lemma byte_of_Z_mod (z : Z) : byte_of_Z (z mod 256) = byte_of_Z z.
Proof. unfold byte_of_Z. now rewrite Z.mod_mod by lia. Qed.

(** A field put below a shifted value adds to it. *)
Lemma lor_shiftl_add (hi lo k : Z) :
  0 <= k -> 0 <= lo < 2 ^ k -> Z.lor (Z.shiftl hi k) lo = hi * 2 ^ k + lo.
Proof.
  intros Hk Hlo.
  pose proof (Z.add_lor_land (Z.shiftl hi k) lo) as Hadd.
  assert (Hland : Z.land (Z.shiftl hi k) lo = 0).
  { apply Z.bits_inj'. intros n Hn.
    rewrite Z.land_spec, Z.bits_0.
    destruct (Z.ltb_spec n k) as [Hlt | Hge].
    - rewrite Z.shiftl_spec_low by lia. reflexivity.
    - rewrite <- (Z.mod_small lo (2 ^ k)) by assumption.
      rewrite Z.mod_pow2_bits_high by lia. apply andb_false_r. }
  rewrite Z.shiftl_mul_pow2 in * by assumption. lia.
Qed.

Lemma lor_low_add (a lo k : Z) :
  0 <= k -> a mod 2 ^ k = 0 -> 0 <= lo < 2 ^ k -> Z.lor a lo = a + lo.
Proof.
  intros Hk Ha Hlo.
  assert (Hpos : 0 < 2 ^ k) by (apply Z.pow_pos_nonneg; lia).
  assert (Hdiv : a = Z.shiftl (a / 2 ^ k) k).
  { rewrite Z.shiftl_mul_pow2 by assumption.
    pose proof (Z.div_mod a (2 ^ k)). lia. }
  rewrite Hdiv at 1. rewrite lor_shiftl_add by assumption.
  pose proof (Z.div_mod a (2 ^ k)). lia.
Qed.

(** ** Base64 *)

Lemma base64_dec_enc (v : Z) : base64.dec (base64.enc v) = Some (v mod 64).
Proof.
  unfold base64.enc.
  assert (Hr : 0 <= v mod 64 < 64) by (apply Z.mod_pos_bound; lia).
  rewrite <- (Z2Nat.id (v mod 64)) at 2 by lia.
  assert (Hn : (Z.to_nat (v mod 64) < 64)%nat) by lia.
  clear Hr. generalize dependent (Z.to_nat (v mod 64)). intros n Hn.
  do 64 (destruct n as [|n]; [reflexivity|]). lia.
Qed.

Lemma base64_dec_pad : base64.dec base64.padChar = None.
Proof. reflexivity. Qed.

(** The three bytes of a quantum, read back from its four 6-bit fields. *)
Lemma base64_quantum (x y z : Z) :
  0 <= x < 256 -> 0 <= y < 256 -> 0 <= z < 256 ->
  let v := Z.lor (Z.lor (Z.shiftl x 16) (Z.shiftl y 8)) z in
  let v' := Z.lor (Z.lor (Z.lor (Z.shiftl (Z.shiftr v 18 mod 64) 18)
                                (Z.shiftl (Z.shiftr v 12 mod 64) 12))
                         (Z.shiftl (Z.shiftr v 6 mod 64) 6)) (v mod 64) in
  Z.shiftr v' 16 mod 256 = x /\ Z.shiftr v' 8 mod 256 = y /\ v' mod 256 = z.
Proof.
  intros Hx Hy Hz v v'.
  assert (Hv : v = x * 65536 + y * 256 + z).
  { unfold v. rewrite (lor_low_add _ (Z.shiftl y 8) 16), (lor_low_add _ z 8);
      rewrite ?Z.shiftl_mul_pow2 by lia; change (2 ^ 16) with 65536;
      change (2 ^ 8) with 256; try lia.
    - Z.div_mod_to_equations; lia.
    - Z.div_mod_to_equations; lia. }
  assert (Hv' : v' = v).
  { unfold v'. rewrite !Z.shiftr_div_pow2 by lia.
    rewrite (lor_low_add _ (Z.shiftl _ 12) 18), (lor_low_add _ (Z.shiftl _ 6) 12),
      (lor_low_add _ (v mod 64) 6);
      rewrite ?Z.shiftl_mul_pow2 by lia;
      change (2 ^ 18) with 262144; change (2 ^ 12) with 4096;
      change (2 ^ 6) with 64; try lia;
      rewrite Hv; Z.div_mod_to_equations; lia. }
  rewrite Hv', !Z.shiftr_div_pow2 by lia.
  change (2 ^ 16) with 65536; change (2 ^ 8) with 256.
  rewrite Hv. repeat split; Z.div_mod_to_equations; lia.
Qed.

Lemma base64_tail1 (x : Z) :
  0 <= x < 256 ->
  let v := Z.shiftl x 16 in
  let v' := Z.lor (Z.shiftl (Z.shiftr v 18 mod 64) 18)
                  (Z.shiftl (Z.shiftr v 12 mod 64) 12) in
  Z.shiftr v' 16 mod 256 = x.
Proof.
  intros Hx v v'.
  assert (Hv : v = x * 65536) by (unfold v; rewrite Z.shiftl_mul_pow2 by lia; lia).
  assert (Hv' : v' = v).
  { unfold v'. rewrite !Z.shiftr_div_pow2 by lia.
    rewrite (lor_low_add _ (Z.shiftl _ 12) 18);
      rewrite ?Z.shiftl_mul_pow2 by lia;
      change (2 ^ 18) with 262144; change (2 ^ 12) with 4096; try lia;
      rewrite Hv; Z.div_mod_to_equations; lia. }
  rewrite Hv', Z.shiftr_div_pow2 by lia. change (2 ^ 16) with 65536.
  rewrite Hv. Z.div_mod_to_equations; lia.
Qed.

Lemma base64_tail2 (x y : Z) :
  0 <= x < 256 -> 0 <= y < 256 ->
  let v := Z.lor (Z.shiftl x 16) (Z.shiftl y 8) in
  let v' := Z.lor (Z.lor (Z.shiftl (Z.shiftr v 18 mod 64) 18)
                         (Z.shiftl (Z.shiftr v 12 mod 64) 12))
                  (Z.shiftl (Z.shiftr v 6 mod 64) 6) in
  Z.shiftr v' 16 mod 256 = x /\ Z.shiftr v' 8 mod 256 = y.
Proof.
  intros Hx Hy v v'.
  assert (Hv : v = x * 65536 + y * 256).
  { unfold v. rewrite (lor_low_add _ (Z.shiftl y 8) 16);
      rewrite ?Z.shiftl_mul_pow2 by lia; change (2 ^ 16) with 65536;
      change (2 ^ 8) with 256; try lia.
    Z.div_mod_to_equations; lia. }
  assert (Hv' : v' = v).
  { unfold v'. rewrite !Z.shiftr_div_pow2 by lia.
    rewrite (lor_low_add _ (Z.shiftl _ 12) 18), (lor_low_add _ (Z.shiftl _ 6) 12);
      rewrite ?Z.shiftl_mul_pow2 by lia;
      change (2 ^ 18) with 262144; change (2 ^ 12) with 4096;
      change (2 ^ 6) with 64; try lia;
      rewrite Hv; Z.div_mod_to_equations; lia. }
  rewrite Hv', !Z.shiftr_div_pow2 by lia.
  change (2 ^ 16) with 65536; change (2 ^ 8) with 256.
  rewrite Hv. split; Z.div_mod_to_equations; lia.
Qed.

Lemma byte_of_Z_eq (w : Z) (b : byte) : w mod 256 = u8 b -> byte_of_Z w = b.
Proof. intros H. rewrite <- byte_of_Z_mod, H. apply byte_of_Z_u8. Qed.

(** Decoding an encoding gives the bytes back. *)
Lemma base64_roundtrip_bounded (n : nat) : forall src : list byte,
  (List.length src <= n)%nat ->
  base64.DecodeString (base64.EncodeToString src) = Some src.
Proof.
  induction n as [|n IH]; intros src Hlen.
  - destruct src; [reflexivity | simpl in Hlen; lia].
  - destruct src as [|a [|b [|c rest]]].
    + reflexivity.
    + cbn [base64.EncodeToString base64.DecodeString].
      rewrite !base64_dec_enc, base64_dec_pad.
      change (Byte.eqb base64.padChar base64.padChar) with true. cbn [andb].
      f_equal. f_equal. apply byte_of_Z_eq, base64_tail1, u8_range.
    + cbn [base64.EncodeToString base64.DecodeString].
      rewrite !base64_dec_enc, base64_dec_pad.
      change (Byte.eqb base64.padChar base64.padChar) with true. cbn iota.
      destruct (base64_tail2 (u8 a) (u8 b) (u8_range a) (u8_range b)) as [Ha Hb].
      f_equal. f_equal; [|f_equal]; now apply byte_of_Z_eq.
    + cbn [base64.EncodeToString base64.DecodeString].
      rewrite !base64_dec_enc.
      rewrite IH by (simpl in Hlen; lia).
      destruct (base64_quantum (u8 a) (u8 b) (u8 c) (u8_range a) (u8_range b)
                  (u8_range c)) as (Ha & Hb & Hc).
      f_equal. f_equal; [|f_equal; [|f_equal]]; now apply byte_of_Z_eq.
Qed.

Lemma base64_roundtrip (src : list byte) :
  base64.DecodeString (base64.EncodeToString src) = Some src.
Proof. exact (base64_roundtrip_bounded (List.length src) src (le_n _)). Qed.

(** ** [getValue] *)

Lemma In_existsb_eqb (c : byte) (l : list byte) :
  existsb (Byte.eqb c) l = true <-> In c l.
Proof.
  rewrite existsb_exists. split.
  - intros (x & Hin & Heq). apply Byte.byte_dec_bl in Heq. now subst.
  - intros Hin. exists c. split; [assumption | now apply Byte.byte_dec_lb].
Qed.

(** [TrimLeft] removes a prefix made of bytes of the cutset and stops at
    the first byte outside it. *)
Lemma TrimLeft_spec (s cutset : list byte) :
  exists ws, s = ws ++ TrimLeft s cutset
             /\ Forall (fun c => In c cutset) ws
             /\ match TrimLeft s cutset with
                | c :: _ => ~ In c cutset
                | [] => True
                end.
Proof.
  induction s as [|c r IH].
  - exists []. repeat split; constructor.
  - simpl. destruct (existsb (Byte.eqb c) cutset) eqn:Hc.
    + destruct IH as (ws & Heq & Hws & Hhd).
      exists (c :: ws). repeat split.
      * simpl. now rewrite <- Heq.
      * constructor; [now apply In_existsb_eqb | assumption].
      * assumption.
    + exists []. repeat split; [constructor|].
      intros Hin. apply In_existsb_eqb in Hin. congruence.
Qed.

Lemma TrimLeft_nil_all (s cutset : list byte) :
  TrimLeft s cutset = [] -> Forall (fun c => In c cutset) s.
Proof.
  intros H. destruct (TrimLeft_spec s cutset) as (ws & Heq & Hws & _).
  rewrite H, app_nil_r in Heq. now subst.
Qed.

Lemma TrimLeft_all (s cutset : list byte) :
  Forall (fun c => In c cutset) s -> TrimLeft s cutset = [].
Proof.
  induction 1 as [|c r Hc _ IH]; [reflexivity|].
  simpl. apply In_existsb_eqb in Hc. now rewrite Hc.
Qed.

(** White space is ASCII, so a payload of white space is valid UTF-8. *)
Lemma whitespace_utf8 (s : list byte) :
  Forall (fun c => In c whitespace) s -> utf8.Valid s = true.
Proof.
  induction 1 as [|c r Hc _ IH]; [reflexivity|].
  simpl in Hc. decompose [or] Hc; subst; try contradiction; simpl; exact IH.
Qed.

Lemma len_zero_iff (value : slice) : len value = 0 <-> data value = [].
Proof.
  unfold len. destruct (data value); simpl; split; intros H;
    try reflexivity; try discriminate; lia.
Qed.

(** Case analysis along the tests of [getValue], in their order. *)
Ltac getValue_cases value :=
  unfold getValue;
  let c := fresh "c" in
  let rest := fresh "rest" in
  destruct (len value =? 0) eqn:Hlen;
  [| destruct (TrimLeft (data value) whitespace) as [|c rest] eqn:Htrim;
     [| destruct (Byte.eqb c "[" || Byte.eqb c "{") eqn:Hjson;
        [destruct (Validate (c :: rest)) eqn:Hval|];
        (destruct (Byte.eqb c "<") eqn:Hxml;
         [destruct (Convert (c :: rest)) eqn:Hconv|]);
        destruct (utf8.Valid (data value)) eqn:Hutf8 ] ];
  unfold embed; cbn [fst snd DirectEmbedding.ValueType DirectEmbedding.Value].

Section GetValueProperties.
Context {D : Decoders}.

(** The tag inside the embedding is the type returned beside it. *)
Lemma getValue_tag (value : slice) :
  DirectEmbedding.ValueType (snd (getValue value)) = fst (getValue value).
Proof. getValue_cases value; reflexivity. Qed.

(** The type returned is one of the five. *)
Lemma getValue_type (value : slice) :
  In (fst (getValue value))
     [""%string; valueTypeJSON; valueTypeXML; valueTypeText; valueTypeBinary].
Proof. getValue_cases value; simpl; auto 6. Qed.

(** A payload whose first significant byte opens an object or an array
    and that the validator accepts is JSON, kept from that byte on. *)
Lemma getValue_json (value : slice) (c : byte) (rest : list byte) :
  TrimLeft (data value) whitespace = c :: rest ->
  c = "["%byte \/ c = "{"%byte ->
  Validate (c :: rest) = None ->
  getValue value = embed valueTypeJSON (Some (c :: rest)).
Proof.
  intros Htrim Hc Hval. unfold getValue.
  assert (Hlen : (len value =? 0) = false).
  { apply Z.eqb_neq. rewrite len_zero_iff. intros Hnil.
    rewrite Hnil in Htrim. discriminate. }
  rewrite Hlen, Htrim.
  assert (Hstart : (Byte.eqb c "[" || Byte.eqb c "{") = true)
    by (destruct Hc; subst; reflexivity).
  rewrite Hstart, Hval. reflexivity.
Qed.

(** What is classified JSON passed the first test. *)
Lemma getValue_json_inv (value : slice) :
  fst (getValue value) = valueTypeJSON ->
  exists c rest,
    TrimLeft (data value) whitespace = c :: rest
    /\ (c = "["%byte \/ c = "{"%byte)
    /\ Validate (c :: rest) = None.
Proof.
  getValue_cases value; try discriminate.
  all: intros _; exists c, rest; repeat split; try assumption.
  all: apply orb_prop in Hjson;
    destruct Hjson as [H | H]; apply Byte.byte_dec_bl in H; auto.
Qed.

(** What the first test takes is what [getValue] returns as JSON. *)
Lemma acceptedAsJSON_iff (value : slice) :
  acceptedAsJSON value = true <-> fst (getValue value) = valueTypeJSON.
Proof.
  unfold acceptedAsJSON. split.
  - destruct (TrimLeft (data value) whitespace) as [|c rest] eqn:Htrim;
      [discriminate|].
    intros H. apply andb_prop in H. destruct H as [Hstart Hval].
    destruct (Validate (c :: rest)) eqn:Hv; [discriminate|].
    apply orb_prop in Hstart.
    rewrite (getValue_json value c rest Htrim); [reflexivity| |assumption].
    destruct Hstart as [H | H]; apply Byte.byte_dec_bl in H; auto.
  - intros H. apply getValue_json_inv in H.
    destruct H as (c & rest & Htrim & Hc & Hval).
    rewrite Htrim, Hval. destruct Hc; subst; reflexivity.
Qed.

(** What [getValue] returns as XML is what the second test takes and the
    first did not. *)
Lemma convertedAsXML_iff (value : slice) :
  acceptedAsJSON value = false /\ convertedAsXML value = true
  <-> fst (getValue value) = valueTypeXML.
Proof.
  unfold acceptedAsJSON, convertedAsXML.
  getValue_cases value; rewrite ?Htrim, ?Hjson, ?Hval, ?Hxml, ?Hconv;
    cbn [andb]; split; try discriminate; try tauto; try (intros [? ?]; discriminate).
  all: try (apply Z.eqb_eq, len_zero_iff in Hlen; rewrite Hlen; cbn [TrimLeft];
            intros [? ?]; discriminate).
Qed.

End GetValueProperties.

Section GetValueClaims.
Context {D : Decoders}.

(** C8: [getValue] returns the empty type exactly for an empty payload,
    the tag inside the embedding being the type returned; a payload that
    is not empty and holds white space only is text. *)
Theorem getValue_none_iff_empty (value : slice) :
  (fst (getValue value) = ""%string <-> data value = [])
  /\ DirectEmbedding.ValueType (snd (getValue value)) = fst (getValue value)
  /\ (data value <> [] ->
      Forall (fun c => In c whitespace) (data value) ->
      getValue value = embed valueTypeText value).
Proof.
  split; [|split].
  - rewrite <- len_zero_iff.
    getValue_cases value; apply Z.eqb_eq in Hlen || apply Z.eqb_neq in Hlen;
      split; intros H; try reflexivity; try assumption;
      try discriminate; contradiction.
  - apply getValue_tag.
  - intros Hne Hws. unfold getValue.
    rewrite <- len_zero_iff in Hne. apply Z.eqb_neq in Hne. rewrite Hne.
    now rewrite (TrimLeft_all _ _ Hws).
Qed.

(** C3, amended: a payload whose first byte after the leading white
    space is ['['] or ['{'] and whose bytes from there on pass the JSON
    validation is returned as JSON, the embedding holding the payload
    without its leading white space. *)
Theorem getValue_json_trimmed (value : slice) (c : byte) (rest : list byte) :
  TrimLeft (data value) whitespace = c :: rest ->
  c = "["%byte \/ c = "{"%byte ->
  Validate (c :: rest) = None ->
  getValue value
    = (valueTypeJSON,
       {| DirectEmbedding.ValueType := valueTypeJSON;
          DirectEmbedding.Value := Some (c :: rest) |})
  /\ exists ws, data value = ws ++ c :: rest
                /\ Forall (fun b => In b whitespace) ws.
Proof.
  intros Htrim Hc Hval. split.
  - now apply getValue_json.
  - destruct (TrimLeft_spec (data value) whitespace) as (ws & Heq & Hws & _).
    exists ws. rewrite Htrim in Heq. now split.
Qed.

(** C7, amended: a payload that is not valid UTF-8 and that the first
    two tests take neither as JSON nor as XML is returned as binary, the
    embedding holding the base64 encoding of the payload, and decoding
    that encoding gives the payload back. *)
Theorem getValue_binary_roundtrip (value : slice) :
  utf8.Valid (data value) = false ->
  acceptedAsJSON value = false ->
  convertedAsXML value = false ->
  getValue value
    = (valueTypeBinary,
       {| DirectEmbedding.ValueType := valueTypeBinary;
          DirectEmbedding.Value := Some (base64.EncodeToString (data value)) |})
  /\ base64.DecodeString (base64.EncodeToString (data value)) = Some (data value).
Proof.
  intros Hutf Hj Hx. split; [|apply base64_roundtrip].
  unfold acceptedAsJSON in Hj. unfold convertedAsXML in Hx.
  getValue_cases value; rewrite ?Htrim, ?Hjson, ?Hval, ?Hxml, ?Hconv in *;
    try discriminate; try reflexivity.
  - apply Z.eqb_eq, len_zero_iff in Hlen. rewrite Hlen in Hutf. discriminate.
  - apply TrimLeft_nil_all, whitespace_utf8 in Htrim. congruence.
Qed.

End GetValueClaims.

(** A payload of two spaces is text, not the empty type. *)
Lemma getValue_none_iff_empty_witness :
  @getValue jsonDecoders (B "  ") = embed valueTypeText (B "  ").
Proof.
  apply (proj2 (proj2 (@getValue_none_iff_empty jsonDecoders (B "  ")))).
  - discriminate.
  - repeat constructor.
Defined.

(** The scalar [1] is a JSON text, and [getValue] returns it as text: the
    validation is only tried behind ['['] and ['{']. *)
Lemma getValue_json_scalar_counterexample :
  data (B "1") <> []
  /\ fastjson.Validate (data (B "1")) = None
  /\ @getValue jsonDecoders (B "1") = embed valueTypeText (B "1")
  /\ fst (@getValue jsonDecoders (B "1")) <> valueTypeJSON.
Proof. repeat split; try reflexivity; discriminate. Qed.

Lemma getValue_json_trimmed_witness :
  @getValue jsonDecoders (B "  [1, 2]")
    = (valueTypeJSON,
       {| DirectEmbedding.ValueType := valueTypeJSON;
          DirectEmbedding.Value := B "[1, 2]" |})
  /\ exists ws, data (B "  [1, 2]") = ws ++ data (B "[1, 2]")
                /\ Forall (fun b => In b whitespace) ws.
Proof.
  apply (@getValue_json_trimmed jsonDecoders (B "  [1, 2]") "["%byte
           (bytes_of_string "1, 2]")).
  - reflexivity.
  - left. reflexivity.
  - reflexivity.
Defined.

(** The object [objectWithByteFF] is not valid UTF-8, the validator
    accepts it, and [getValue] returns it as JSON, not as binary. *)
Lemma getValue_binary_counterexample :
  utf8.Valid (data objectWithByteFF) = false
  /\ @getValue jsonDecoders objectWithByteFF = embed valueTypeJSON objectWithByteFF
  /\ fst (@getValue jsonDecoders objectWithByteFF) <> valueTypeBinary.
Proof. repeat split; try reflexivity; discriminate. Qed.

Lemma getValue_binary_roundtrip_witness :
  @getValue jsonDecoders (Some [xff; x00])
    = (valueTypeBinary,
       {| DirectEmbedding.ValueType := valueTypeBinary;
          DirectEmbedding.Value := B "/wA=" |})
  /\ base64.DecodeString (data (B "/wA=")) = Some [xff; x00].
Proof.
  apply (@getValue_binary_roundtrip jsonDecoders (Some [xff; x00]));
    reflexivity.
Defined.

(** ** The loop *)

Lemma int64_small (x : Z) : - 2 ^ 63 <= x < 2 ^ 63 -> int64 x = x.
Proof. intros H. unfold int64. rewrite Z.mod_small; lia. Qed.

Lemma defer_returned (evs tr : list Event) :
  defer evs (tr, Returned) = (tr ++ evs, Returned).
Proof. reflexivity. Qed.

Lemma defer_waiting (evs tr : list Event) :
  defer evs (tr, Waiting) = (tr, Waiting).
Proof. reflexivity. Qed.

Lemma defer_left (evs : list Event) (r : list Event * Outcome) :
  snd r <> Waiting -> defer evs r = (fst r ++ evs, snd r).
Proof. unfold defer. destruct (snd r); congruence. Qed.

Lemma snd_defer (evs : list Event) (r : list Event * Outcome) :
  snd (defer evs r) = snd r.
Proof. unfold defer. destruct r as [tr []]; reflexivity. Qed.

Lemma sends_app (tr1 tr2 : list Event) : sends (tr1 ++ tr2) = sends tr1 ++ sends tr2.
Proof.
  induction tr1 as [|e tr1 IH]; [reflexivity|].
  destruct e; simpl; rewrite IH; reflexivity.
Qed.

Lemma consumed_app (tr1 tr2 : list Event) :
  consumed (tr1 ++ tr2) = consumed tr1 ++ consumed tr2.
Proof.
  induction tr1 as [|e tr1 IH]; [reflexivity|].
  destruct e; simpl; rewrite IH; reflexivity.
Qed.

Lemma errors_app (tr1 tr2 : list Event) :
  errors (tr1 ++ tr2) = errors tr1 ++ errors tr2.
Proof.
  induction tr1 as [|e tr1 IH]; [reflexivity|].
  destruct e; simpl; rewrite IH; reflexivity.
Qed.

Lemma doneCount_app (tr1 tr2 : list Event) :
  doneCount (tr1 ++ tr2) = (doneCount tr1 + doneCount tr2)%nat.
Proof.
  induction tr1 as [|e tr1 IH]; [reflexivity|].
  destruct e; simpl; rewrite IH; reflexivity.
Qed.

Lemma doneCount_zero (tr : list Event) : doneCount tr = 0%nat <-> ~ In Done tr.
Proof.
  induction tr as [|e tr IH]; simpl.
  - tauto.
  - destruct e; simpl; rewrite ?IH;
      try (split; [intros H [H1 | H1]; [discriminate | tauto] | tauto]).
    split; [discriminate | intros H; exfalso; apply H; now left].
Qed.

Section LoopProperties.
Context {D : Decoders} {P : Parser} {E : Otto}.
Variable p : PartitionConsumer.t.

Let req := PartitionConsumer.Req p.

(** A filter that decides by [accept] answers so and goes on doing so. *)
Lemma decides_call (f : Filter) (accept : ConsumerMessage.t -> bool)
    (m : ConsumerMessage.t) :
  decides f accept ->
  exists f', callFilter f (filterArguments m) = (Return (accept m) None, f')
             /\ decides f' accept.
Proof.
  destruct f as [|interpreter vm]; simpl; intros Hd.
  - exists AcceptAll. rewrite Hd. split; [reflexivity | exact Hd].
  - specialize (Hd vm m) as Hm.
    destruct (isMessageOk interpreter vm (filterArguments m)) as [r vm'].
    simpl in Hm. subst r. exists (Script interpreter vm'). split; [reflexivity|].
    exact Hd.
Qed.

(** The loop on records that are all read and sent: it shows the
    records up to the stop point and returns, or shows them all and
    waits for more. *)
Lemma loop_deliver (accept : ConsumerMessage.t -> bool) :
  forall (rs : list ConsumerMessage.t) (f : Filter) (count : Z),
    decides f accept ->
    0 <= count ->
    count + Z.of_nat (List.length rs) < 2 ^ 63 ->
    loop p f count (map deliver rs)
    = match stopPoint req accept count rs with
      | Some k => (flat_map (fun m => block m (accept m)) (firstn (S k) rs), Returned)
      | None => (flat_map (fun m => block m (accept m)) rs, Waiting)
      end.
Proof.
  induction rs as [|m rest IH]; intros f count Hd Hc Hlen; [reflexivity|].
  cbn [map deliver loop stopPoint].
  destruct (decides_call f accept m Hd) as (f' & Hcall & Hd').
  rewrite Hcall. cbn [List.length] in Hlen.
  assert (Hwrap : int64 (count + 1) = count + 1) by (apply int64_small; lia).
  rewrite Hwrap. fold req.
  set (count' := if accept m then count + 1 else count).
  assert (Hc' : 0 <= count' /\ count' + Z.of_nat (List.length rest) < 2 ^ 63)
    by (unfold count'; destruct (accept m); lia).
  specialize (IH f' count' Hd' (proj1 Hc') (proj2 Hc')).
  destruct (reachedEnd req m count') eqn:Hend.
  - cbn [firstn flat_map]. unfold emit, block.
    destruct (accept m); reflexivity.
  - rewrite IH.
    destruct (stopPoint req accept count' rest) as [k|];
      cbn [option_map firstn flat_map]; unfold emit, block;
      destruct (accept m); reflexivity.
Qed.

Lemma acceptedCount_cons (accept : ConsumerMessage.t -> bool)
    (m : ConsumerMessage.t) (ms : list ConsumerMessage.t) :
  acceptedCount accept (m :: ms)
  = (if accept m then 1 else 0) + acceptedCount accept ms.
Proof.
  unfold acceptedCount. simpl. destruct (accept m); simpl List.length; lia.
Qed.

Lemma reachedEnd_iff (m : ConsumerMessage.t) (count : Z) :
  reachedEnd req m count = true
  <-> PartitionConsumeRequest.EndOffset req <= ConsumerMessage.Offset m
      \/ count = PartitionConsumeRequest.MaxMessageCount req.
Proof.
  unfold reachedEnd. rewrite orb_true_iff, Z.leb_le, Z.eqb_eq. reflexivity.
Qed.

Lemma stopsAt_zero (accept : ConsumerMessage.t -> bool) (count : Z)
    (m : ConsumerMessage.t) (rest : list ConsumerMessage.t) :
  stopsAt req accept count (m :: rest) 0
  <-> reachedEnd req m (if accept m then count + 1 else count) = true.
Proof.
  rewrite reachedEnd_iff.
  unfold stopsAt. cbn [nth_error firstn]. rewrite acceptedCount_cons.
  unfold acceptedCount. cbn [filter List.length Z.of_nat].
  replace (count + ((if accept m then 1 else 0) + 0))
    with (if accept m then count + 1 else count) by (destruct (accept m); lia).
  split.
  - intros (m' & Hm & H). now inversion Hm; subst.
  - intros H. now exists m.
Qed.

Lemma stopsAt_succ (accept : ConsumerMessage.t -> bool) (count : Z)
    (m : ConsumerMessage.t) (rest : list ConsumerMessage.t) (i : nat) :
  stopsAt req accept count (m :: rest) (S i)
  <-> stopsAt req accept (if accept m then count + 1 else count) rest i.
Proof.
  unfold stopsAt. cbn [nth_error]. change (firstn (S (S i)) (m :: rest))
    with (m :: firstn (S i) rest).
  rewrite acceptedCount_cons.
  replace (count + ((if accept m then 1 else 0) + acceptedCount accept (firstn (S i) rest)))
    with ((if accept m then count + 1 else count)
          + acceptedCount accept (firstn (S i) rest))
    by (destruct (accept m); lia).
  reflexivity.
Qed.

(** [stopPoint] finds the first index at which the stop condition holds. *)
Lemma stopPoint_first (accept : ConsumerMessage.t -> bool) :
  forall (rs : list ConsumerMessage.t) (count : Z),
    match stopPoint req accept count rs with
    | Some k => stopsAt req accept count rs k
                /\ forall j, (j < k)%nat -> ~ stopsAt req accept count rs j
    | None => forall i, ~ stopsAt req accept count rs i
    end.
Proof.
  induction rs as [|m rest IH]; intros count.
  - simpl. intros i (m & Hm & _). destruct i; discriminate.
  - cbn [stopPoint].
    destruct (reachedEnd req m (if accept m then count + 1 else count)) eqn:Hend.
    + split; [now apply stopsAt_zero | intros j Hj; lia].
    + specialize (IH (if accept m then count + 1 else count)).
      assert (H0 : ~ stopsAt req accept count (m :: rest) 0)
        by (rewrite stopsAt_zero; congruence).
      destruct (stopPoint req accept _ rest) as [k|]; cbn [option_map].
      * destruct IH as [Hk Hmin]. split; [now apply stopsAt_succ|].
        intros [|j] Hj; [exact H0|].
        rewrite stopsAt_succ. apply Hmin. lia.
      * intros [|i]; [exact H0|]. rewrite stopsAt_succ. apply IH.
Qed.

Lemma stopPoint_of_first (accept : ConsumerMessage.t -> bool)
    (rs : list ConsumerMessage.t) (count : Z) (i : nat) :
  stopsAt req accept count rs i ->
  (forall j, (j < i)%nat -> ~ stopsAt req accept count rs j) ->
  stopPoint req accept count rs = Some i.
Proof.
  intros Hi Hmin. pose proof (stopPoint_first accept rs count) as H.
  destruct (stopPoint req accept count rs) as [k|].
  - destruct H as [Hk Hkmin]. f_equal.
    destruct (Nat.lt_trichotomy k i) as [Hlt | [Heq | Hgt]];
      [exfalso; now apply (Hmin k) | assumption | exfalso; now apply (Hkmin i)].
  - exfalso. now apply (H i).
Qed.

Lemma stopPoint_of_none (accept : ConsumerMessage.t -> bool)
    (rs : list ConsumerMessage.t) (count : Z) :
  (forall i, ~ stopsAt req accept count rs i) ->
  stopPoint req accept count rs = None.
Proof.
  intros Hnone. pose proof (stopPoint_first accept rs count) as H.
  destruct (stopPoint req accept count rs) as [k|]; [|reflexivity].
  exfalso. now apply (Hnone k).
Qed.

Lemma sends_blocks (accept : ConsumerMessage.t -> bool)
    (ms : list ConsumerMessage.t) :
  sends (flat_map (fun m => block m (accept m)) ms)
  = map topicMessage (filter accept ms).
Proof.
  induction ms as [|m ms IH]; [reflexivity|].
  cbn [flat_map filter]. rewrite sends_app, IH. unfold block.
  destruct (accept m); reflexivity.
Qed.

Lemma consumed_blocks (accept : ConsumerMessage.t -> bool)
    (ms : list ConsumerMessage.t) :
  consumed (flat_map (fun m => block m (accept m)) ms)
  = map (fun m => int64 (messageSize m)) ms.
Proof.
  induction ms as [|m ms IH]; [reflexivity|].
  cbn [flat_map map]. rewrite consumed_app, IH. unfold block.
  destruct (accept m); reflexivity.
Qed.

Lemma errors_blocks (accept : ConsumerMessage.t -> bool)
    (ms : list ConsumerMessage.t) :
  errors (flat_map (fun m => block m (accept m)) ms) = [].
Proof.
  induction ms as [|m ms IH]; [reflexivity|].
  cbn [flat_map]. rewrite errors_app, IH. unfold block.
  destruct (accept m); reflexivity.
Qed.

Lemma In_firstn (A : Type) (x : A) (n : nat) (l : list A) :
  In x (firstn n l) -> In x l.
Proof.
  revert l. induction n as [|n IH]; intros [|y l]; simpl; try tauto.
  intros [H | H]; [now left | right; now apply IH].
Qed.

Lemma filter_all (A : Type) (f : A -> bool) (l : list A) :
  (forall x, In x l -> f x = true) -> filter f l = l.
Proof.
  induction l as [|x l IH]; intros H; [reflexivity|].
  simpl. rewrite (H x) by now left. f_equal. apply IH.
  intros y Hy. apply H. now right.
Qed.

(** [Run] when the partition opens, the filter is set up and decides by
    [accept], and every record is read and sent. *)
Lemma Run_deliver (w : World) (f : Filter) (accept : ConsumerMessage.t -> bool)
    (rs : list ConsumerMessage.t) :
  consumeErr w = None ->
  SetupInterpreter p = Ok f ->
  decides f accept ->
  selects w = map deliver rs ->
  Z.of_nat (List.length rs) < 2 ^ 63 ->
  Run p w
  = match stopPoint req accept 0 rs with
    | Some k =>
        (flat_map (fun m => block m (accept m)) (firstn (S k) rs)
           ++ deferredClose w ++ [Done], Returned)
    | None => (flat_map (fun m => block m (accept m)) rs, Waiting)
    end.
Proof.
  intros Hopen Hsetup Hd Hsel Hlen. unfold Run, consume.
  rewrite Hopen, Hsetup, Hsel, (loop_deliver accept rs f 0 Hd) by lia.
  destruct (stopPoint req accept 0 rs) as [k|].
  - rewrite !defer_returned, <- app_assoc. reflexivity.
  - rewrite !defer_waiting. reflexivity.
Qed.

End LoopProperties.

Section RunClaims.
Context {D : Decoders} {P : Parser} {E : Otto}.

(** C1: with [StartOffset <= EndOffset], a partition that opens, a
    filter that is set up and decides by [accept], and records that are
    all read and sent, [Run] processes the records up to and including
    the first one after which the offset of the record is at least
    [EndOffset] or the number of accepted records equals
    [MaxMessageCount], the test being made after every record, accepted
    or not; there it returns without error.  If no record meets the
    condition it processes them all and waits for the next.  With
    [MaxMessageCount = 3] and ten records, all accepted and all below
    [EndOffset], exactly the first three are sent and the task returns. *)
Theorem Run_stops_at_first_bound (p : PartitionConsumer.t) (w : World)
    (f : Filter) (accept : ConsumerMessage.t -> bool)
    (rs : list ConsumerMessage.t) :
  let req := PartitionConsumer.Req p in
  PartitionConsumeRequest.StartOffset req <= PartitionConsumeRequest.EndOffset req ->
  consumeErr w = None ->
  SetupInterpreter p = Ok f ->
  decides f accept ->
  selects w = map deliver rs ->
  Z.of_nat (List.length rs) < 2 ^ 63 ->
  (forall i,
      stopsAt req accept 0 rs i ->
      (forall j, (j < i)%nat -> ~ stopsAt req accept 0 rs j) ->
      Run p w
      = (flat_map (fun m => block m (accept m)) (firstn (S i) rs)
           ++ deferredClose w ++ [Done], Returned))
  /\ ((forall i, ~ stopsAt req accept 0 rs i) ->
      Run p w = (flat_map (fun m => block m (accept m)) rs, Waiting))
  /\ (PartitionConsumeRequest.MaxMessageCount req = 3 ->
      List.length rs = 10%nat ->
      (forall m, In m rs ->
                 accept m = true
                 /\ ConsumerMessage.Offset m < PartitionConsumeRequest.EndOffset req) ->
      sends (fst (Run p w)) = map topicMessage (firstn 3 rs)
      /\ List.length (sends (fst (Run p w))) = 3%nat
      /\ List.length (consumed (fst (Run p w))) = 3%nat
      /\ errors (fst (Run p w)) = []
      /\ snd (Run p w) = Returned).
Proof.
  intros req _ Hopen Hsetup Hd Hsel Hlen. subst req.
  set (req := PartitionConsumer.Req p).
  pose proof (Run_deliver p w f accept rs Hopen Hsetup Hd Hsel Hlen) as HRun.
  fold req in HRun.
  assert (Hfirst : forall i,
             stopsAt req accept 0 rs i ->
             (forall j, (j < i)%nat -> ~ stopsAt req accept 0 rs j) ->
             Run p w
             = (flat_map (fun m => block m (accept m)) (firstn (S i) rs)
                  ++ deferredClose w ++ [Done], Returned)).
  { intros i Hi Hmin.
    rewrite HRun. unfold req.
    now rewrite (stopPoint_of_first p accept rs 0 i Hi Hmin). }
  split; [exact Hfirst | split].
  - intros Hnone. rewrite HRun. unfold req.
    now rewrite (stopPoint_of_none p accept rs 0 Hnone).
  - intros Hmax Hten Hall.
    assert (Hacc : forall n, (n <= 10)%nat ->
               acceptedCount accept (firstn n rs) = Z.of_nat n).
    { intros n Hn. unfold acceptedCount. rewrite filter_all.
      - rewrite length_firstn. lia.
      - intros m Hm. apply Hall. eapply In_firstn; eassumption. }
    assert (H2 : stopsAt req accept 0 rs 2).
    { destruct (nth_error rs 2) as [m|] eqn:Hm.
      - exists m. split; [assumption|]. right. rewrite Hacc, Hmax by lia. reflexivity.
      - apply nth_error_None in Hm. lia. }
    assert (Hmin : forall j, (j < 2)%nat -> ~ stopsAt req accept 0 rs j).
    { intros j Hj (m & Hm & [Hoff | Hcount]).
      - apply nth_error_In in Hm. apply Hall in Hm. lia.
      - rewrite Hacc, Hmax in Hcount by lia. lia. }
    rewrite (Hfirst 2%nat H2 Hmin). cbn [fst snd].
    rewrite !sends_app, !consumed_app, !errors_app.
    rewrite sends_blocks, consumed_blocks, errors_blocks.
    assert (Hclose : sends (deferredClose w ++ [Done]) = []
                     /\ consumed (deferredClose w ++ [Done]) = []
                     /\ errors (deferredClose w ++ [Done]) = []).
    { unfold deferredClose. destruct (closeErr w); repeat split. }
    destruct Hclose as (Hs & Hc & He).
    rewrite <- !sends_app, <- !consumed_app, <- !errors_app in *.
    rewrite Hs, Hc, He, !app_nil_r.
    rewrite filter_all
      by (intros m Hm; apply Hall; eapply In_firstn; eassumption).
    rewrite !length_map, length_firstn. repeat split; lia.
Qed.

End RunClaims.

(** ** Every execution of [Run] *)

Lemma sends_progress (tr : list Event) : sends (filter isProgress tr) = sends tr.
Proof.
  induction tr as [|e tr IH]; [reflexivity|].
  destruct e; simpl; rewrite ?IH; reflexivity.
Qed.

Lemma filter_progress_app (tr1 tr2 : list Event) :
  filter isProgress (tr1 ++ tr2) = filter isProgress tr1 ++ filter isProgress tr2.
Proof. apply filter_app. Qed.

Lemma StronglySorted_map_filter (A : Type) (g : A -> Z) (h : A -> bool) (l : list A) :
  StronglySorted Z.lt (map g l) -> StronglySorted Z.lt (map g (filter h l)).
Proof.
  induction l as [|x l IH]; intros Hs; [constructor|].
  simpl in Hs. apply StronglySorted_inv in Hs. destruct Hs as [Hl Hx].
  simpl. destruct (h x); [|now apply IH].
  simpl. constructor; [now apply IH|].
  rewrite Forall_forall in *. intros y Hy.
  apply in_map_iff in Hy. destruct Hy as (a & <- & Ha).
  apply filter_In in Ha. apply Hx, in_map, Ha.
Qed.

Lemma StronglySorted_prefix (l1 l2 : list Z) :
  StronglySorted Z.lt (l1 ++ l2) -> StronglySorted Z.lt l1.
Proof.
  induction l1 as [|x l1 IH]; intros Hs; [constructor|].
  simpl in Hs. apply StronglySorted_inv in Hs. destruct Hs as [Hl Hx].
  constructor; [now apply IH|].
  apply Forall_app in Hx. tauto.
Qed.

Section RunProperties.
Context {D : Decoders} {P : Parser} {E : Otto}.
Variable p : PartitionConsumer.t.

Lemma topicMessage_Offset (m : ConsumerMessage.t) :
  TopicMessage.Offset (topicMessage m) = ConsumerMessage.Offset m.
Proof.
  unfold topicMessage.
  destruct (getValue (ConsumerMessage.Value m)), (getValue (ConsumerMessage.Key m)).
  reflexivity.
Qed.

Lemma topicMessage_Size (m : ConsumerMessage.t) :
  TopicMessage.Size (topicMessage m) = len (ConsumerMessage.Value m).
Proof.
  unfold topicMessage.
  destruct (getValue (ConsumerMessage.Value m)), (getValue (ConsumerMessage.Key m)).
  reflexivity.
Qed.

(** The loop never closes the partition consumer nor writes to
    [DoneCh]: both are left to the deferred calls. *)
Lemma loop_doneCount :
  forall (inputs : list SelectCase) (f : Filter) (count : Z),
    doneCount (fst (loop p f count inputs)) = 0%nat.
Proof.
  induction inputs as [|c inputs IH]; intros f count; [reflexivity|].
  destruct c as [m s | |]; try reflexivity.
  cbn [loop].
  destruct (callFilter f (filterArguments m)) as [r f'].
  destruct r as [isOK [msg|] | caught]; try reflexivity.
  destruct isOK, s; try reflexivity;
    match goal with
    | |- context [reachedEnd ?a ?b ?c] => destruct (reachedEnd a b c)
    end; try reflexivity; cbn [emit fst app doneCount]; apply IH.
Qed.

(** The progress events of the loop: one block for each record it
    processes, in the order of delivery. *)
Lemma loop_blocks :
  forall (inputs : list SelectCase) (f : Filter) (count : Z),
    exists (vs : list (ConsumerMessage.t * bool)) (rest : list ConsumerMessage.t),
      filter isProgress (fst (loop p f count inputs))
      = flat_map (fun v => block (fst v) (snd v)) vs
      /\ delivered inputs = map fst vs ++ rest.
Proof.
  induction inputs as [|c inputs IH]; intros f count.
  - exists [], []. split; reflexivity.
  - destruct c as [m s | |].
    + cbn [loop delivered].
      destruct (callFilter f (filterArguments m)) as [r f'].
      destruct r as [isOK [msg|] | caught].
      * exists [(m, false)], (delivered inputs). split; reflexivity.
      * destruct isOK.
        -- destruct s.
           ++ destruct (reachedEnd (PartitionConsumer.Req p) m (int64 (count + 1))).
              ** exists [(m, true)], (delivered inputs). split; reflexivity.
              ** destruct (IH f' (int64 (count + 1))) as (vs & rest & Htr & Hdel).
                 exists ((m, true) :: vs), rest. split.
                 --- cbn [emit fst app filter isProgress flat_map block snd].
                     now rewrite Htr.
                 --- cbn [map fst app]. now rewrite Hdel.
           ++ exists [(m, false)], (delivered inputs). split; reflexivity.
        -- destruct (reachedEnd (PartitionConsumer.Req p) m count).
           ++ exists [(m, false)], (delivered inputs). split; reflexivity.
           ++ destruct (IH f' count) as (vs & rest & Htr & Hdel).
              exists ((m, false) :: vs), rest. split.
              --- cbn [emit fst app filter isProgress flat_map block snd].
                  now rewrite Htr.
              --- cbn [map fst app]. now rewrite Hdel.
      * exists [(m, false)], (delivered inputs). split; reflexivity.
    + exists [], (delivered (ChannelClosed :: inputs)). split; reflexivity.
    + exists [], (delivered (CtxDone :: inputs)). split; reflexivity.
Qed.

Lemma defer_progress (evs : list Event) (r : list Event * Outcome) :
  filter isProgress evs = [] ->
  filter isProgress (fst (defer evs r)) = filter isProgress (fst r).
Proof.
  intros Hevs. unfold defer. destruct r as [tr out].
  destruct out; cbn [fst snd]; rewrite ?filter_progress_app, ?Hevs, ?app_nil_r;
    reflexivity.
Qed.

Lemma deferredClose_progress (w : World) : filter isProgress (deferredClose w) = [].
Proof. unfold deferredClose. destruct (closeErr w); reflexivity. Qed.

Lemma Run_blocks (w : World) :
  exists (vs : list (ConsumerMessage.t * bool)) (rest : list ConsumerMessage.t),
    filter isProgress (fst (Run p w))
    = flat_map (fun v => block (fst v) (snd v)) vs
    /\ delivered (selects w) = map fst vs ++ rest.
Proof.
  unfold Run, consume. rewrite defer_progress by reflexivity.
  destruct (consumeErr w).
  - exists [], (delivered (selects w)). split; reflexivity.
  - rewrite defer_progress by apply deferredClose_progress.
    destruct (SetupInterpreter p) as [f | msg].
    + apply loop_blocks.
    + exists [], (delivered (selects w)). split; reflexivity.
Qed.

Lemma sends_pairs (vs : list (ConsumerMessage.t * bool)) :
  sends (flat_map (fun v => block (fst v) (snd v)) vs)
  = map topicMessage (map fst (filter snd vs)).
Proof.
  induction vs as [|[m b] vs IH]; [reflexivity|].
  cbn [flat_map filter fst snd]. rewrite sends_app, IH.
  destruct b; reflexivity.
Qed.

Lemma deferredClose_doneCount (w : World) : doneCount (deferredClose w) = 0%nat.
Proof. unfold deferredClose. destruct (closeErr w); reflexivity. Qed.

(** Before the deferred write to [DoneCh], [Run] has not written to it. *)
Lemma consume_doneCount (w : World) : doneCount (fst (consume p w)) = 0%nat.
Proof.
  unfold consume.
  destruct (consumeErr w); [reflexivity|].
  destruct (SetupInterpreter p) as [f | msg].
  - pose proof (loop_doneCount (selects w) f 0) as Hloop.
    unfold defer. destruct (loop p f 0 (selects w)) as [tr out].
    cbn [fst snd] in *.
    destruct out; cbn [fst]; rewrite ?doneCount_app, ?deferredClose_doneCount; lia.
  - rewrite defer_returned. cbn [fst].
    rewrite doneCount_app, deferredClose_doneCount. reflexivity.
Qed.

End RunProperties.

(** ** The filter *)

Section FilterProperties.
Context {D : Decoders} {P : Parser} {E : Otto}.
Variable p : PartitionConsumer.t.

(** An error of the filter ends the loop: it is reported, the record is
    not sent and no further input is read. *)
Lemma loop_filter_error (f f' : Filter) (count : Z) (m : ConsumerMessage.t)
    (s : SendCase) (rest : list SelectCase) (isOk : bool) (msg : string) :
  callFilter f (filterArguments m) = (Return isOk (Some msg), f') ->
  loop p f count (Message m s :: rest) = (filterFailure m, Returned).
Proof. intros H. cbn [loop]. rewrite H. reflexivity. Qed.

(** A call that the interrupt function unwinds gives the timeout error. *)
Lemma isMessageOk_interrupted (interpreter : otto_Object) (vm vm' : otto_VM)
    (args : interpreterArguments.t) (key value : Native) :
  Parse (interpreterArguments.Key args) = Ok key ->
  Parse (interpreterArguments.Value args) = Ok value ->
  scriptCall interpreter vm args key value = (CallPanic (PanicString errTimeout), vm') ->
  isMessageOk interpreter vm args = (Return false (Some errTimeout), vm').
Proof.
  unfold scriptCall, isMessageOk. intros Hk Hv Hcall.
  rewrite Hk, Hv, Hcall. reflexivity.
Qed.

(** A value that the engine fails to convert gives an error. *)
Lemma isMessageOk_conversion_error (interpreter : otto_Object) (vm vm' : otto_VM)
    (args : interpreterArguments.t) (key value : Native) (val : otto_Value)
    (msg : string) :
  Parse (interpreterArguments.Key args) = Ok key ->
  Parse (interpreterArguments.Value args) = Ok value ->
  scriptCall interpreter vm args key value = (CallValue val, vm') ->
  otto_ToBoolean val = Err msg ->
  isMessageOk interpreter vm args
  = (Return false (Some ("failed to cast return type to boolean: " ++ msg)%string),
     vm').
Proof.
  unfold scriptCall, isMessageOk. intros Hk Hv Hcall Hconv.
  rewrite Hk, Hv, Hcall, Hconv. reflexivity.
Qed.

(** A value that the engine converts is the answer of the filter. *)
Lemma isMessageOk_converted (interpreter : otto_Object) (vm vm' : otto_VM)
    (args : interpreterArguments.t) (key value : Native) (val : otto_Value)
    (isOk : bool) :
  Parse (interpreterArguments.Key args) = Ok key ->
  Parse (interpreterArguments.Value args) = Ok value ->
  scriptCall interpreter vm args key value = (CallValue val, vm') ->
  otto_ToBoolean val = Ok isOk ->
  isMessageOk interpreter vm args = (Return isOk None, vm').
Proof.
  unfold scriptCall, isMessageOk. intros Hk Hv Hcall Hconv.
  rewrite Hk, Hv, Hcall, Hconv. reflexivity.
Qed.

(** The timeout error ends the task as any error of the filter does. *)
Lemma loop_interrupted (interpreter : otto_Object) (vm vm' : otto_VM) (count : Z)
    (m : ConsumerMessage.t) (s : SendCase) (rest : list SelectCase)
    (key value : Native) :
  Parse (interpreterArguments.Key (filterArguments m)) = Ok key ->
  Parse (interpreterArguments.Value (filterArguments m)) = Ok value ->
  scriptCall interpreter vm (filterArguments m) key value
  = (CallPanic (PanicString errTimeout), vm') ->
  loop p (Script interpreter vm) count (Message m s :: rest)
  = (filterFailure m, Returned).
Proof.
  intros Hk Hv Hcall.
  apply (loop_filter_error _ (Script interpreter vm') _ _ _ _ false errTimeout).
  cbn [callFilter].
  now rewrite (isMessageOk_interrupted _ _ _ _ _ _ Hk Hv Hcall).
Qed.

End FilterProperties.

Section TaskClaims.
Context {D : Decoders} {P : Parser} {E : Otto}.

(** C4, amended: when the script returns a value, the evaluation is
    decided by the conversion of that value to a boolean by the engine,
    whether the value is a boolean or not.  If the engine converts it,
    [isMessageOk] returns the converted boolean without error and the loop
    goes on with the record as accepted or rejected: a non-boolean value
    that the engine converts is not an error.  If the conversion fails,
    [isMessageOk] returns the error "failed to cast return type to
    boolean", and that error is fatal for the task: the loop reports it
    and returns, the record is not sent and no further record is read. *)
Theorem ToBoolean_decides_evaluation (p : PartitionConsumer.t)
    (interpreter : otto_Object) (vm vm' : otto_VM) (count : Z)
    (m : ConsumerMessage.t) (s : SendCase) (rest : list SelectCase)
    (key value : Native) (val : otto_Value) :
  Parse (interpreterArguments.Key (filterArguments m)) = Ok key ->
  Parse (interpreterArguments.Value (filterArguments m)) = Ok value ->
  scriptCall interpreter vm (filterArguments m) key value = (CallValue val, vm') ->
  (forall isOk,
      otto_ToBoolean val = Ok isOk ->
      isMessageOk interpreter vm (filterArguments m) = (Return isOk None, vm')
      /\ loop p (Script interpreter vm) count (Message m s :: rest)
         = emit [OnMessageConsumed (int64 (messageSize m))]
             (let next := fun c =>
                if reachedEnd (PartitionConsumer.Req p) m c
                then ([], Returned)
                else loop p (Script interpreter vm') c rest in
              if isOk then
                match s with
                | SendCtxDone => ([], Returned)
                | Sent => emit [Send (topicMessage m)] (next (int64 (count + 1)))
                end
              else next count)
      /\ (isOk = true -> s = Sent ->
          exists tr,
            fst (loop p (Script interpreter vm) count (Message m s :: rest))
            = OnMessageConsumed (int64 (messageSize m)) :: Send (topicMessage m) :: tr))
  /\ (otto_IsBoolean val = false ->
      forall isOk,
        otto_ToBoolean val = Ok isOk ->
        callFilter (Script interpreter vm) (filterArguments m)
        = (Return isOk None, Script interpreter vm'))
  /\ (forall msg,
         otto_ToBoolean val = Err msg ->
         isMessageOk interpreter vm (filterArguments m)
         = (Return false (Some ("failed to cast return type to boolean: " ++ msg)%string),
            vm')
         /\ loop p (Script interpreter vm) count (Message m s :: rest)
            = (filterFailure m, Returned)
         /\ (forall w,
                consumeErr w = None ->
                SetupInterpreter p = Ok (Script interpreter vm) ->
                selects w = Message m s :: rest ->
                Run p w = (filterFailure m ++ deferredClose w ++ [Done], Returned)
                /\ sends (fst (Run p w)) = [])).
Proof.
  intros Hk Hv Hcall. split; [|split].
  - intros isOk Hconv.
    pose proof (isMessageOk_converted _ _ _ _ _ _ _ _ Hk Hv Hcall Hconv) as Hok.
    assert (Hloop : loop p (Script interpreter vm) count (Message m s :: rest)
                    = emit [OnMessageConsumed (int64 (messageSize m))]
                        (let next := fun c =>
                           if reachedEnd (PartitionConsumer.Req p) m c
                           then ([], Returned)
                           else loop p (Script interpreter vm') c rest in
                         if isOk then
                           match s with
                           | SendCtxDone => ([], Returned)
                           | Sent => emit [Send (topicMessage m)]
                                       (next (int64 (count + 1)))
                           end
                         else next count)).
    { cbn [loop callFilter]. rewrite Hok. cbv zeta.
      destruct isOk; reflexivity. }
    split; [exact Hok | split; [exact Hloop|]].
    intros -> ->. rewrite Hloop. cbv zeta. unfold emit. cbn [fst snd app].
    eexists. reflexivity.
  - intros _ isOk Hconv. cbn [callFilter].
    now rewrite (isMessageOk_converted _ _ _ _ _ _ _ _ Hk Hv Hcall Hconv).
  - intros msg Hconv.
    pose proof (isMessageOk_conversion_error _ _ _ _ _ _ _ _ Hk Hv Hcall Hconv) as Herr.
    assert (Hloop : forall c, loop p (Script interpreter vm) c (Message m s :: rest)
                              = (filterFailure m, Returned)).
    { intros c. apply (loop_filter_error p _ (Script interpreter vm') _ _ _ _ false
                         ("failed to cast return type to boolean: " ++ msg)%string).
      cbn [callFilter]. now rewrite Herr. }
    split; [exact Herr | split; [apply Hloop|]].
    intros w Hopen Hsetup Hsel.
    assert (HRun : Run p w = (filterFailure m ++ deferredClose w ++ [Done], Returned)).
    { unfold Run, consume. rewrite Hopen, Hsetup, Hsel, Hloop.
      rewrite !defer_returned, <- app_assoc. reflexivity. }
    split; [exact HRun|]. rewrite HRun. cbn [fst].
    rewrite !sends_app. unfold deferredClose. destruct (closeErr w); reflexivity.
Qed.

(** C5: an execution of [Run] that leaves the function, by a return on
    any path or by a panic, has written to [DoneCh] exactly once, as its
    last action; an execution still waiting for input has not written
    to it. *)
Theorem Run_signals_done_once (p : PartitionConsumer.t) (w : World) :
  (snd (Run p w) <> Waiting ->
   doneCount (fst (Run p w)) = 1%nat
   /\ exists tr, fst (Run p w) = tr ++ [Done] /\ ~ In Done tr)
  /\ (snd (Run p w) = Waiting -> doneCount (fst (Run p w)) = 0%nat).
Proof.
  pose proof (consume_doneCount p w) as Hbody. unfold Run.
  split.
  - rewrite snd_defer. intros Hleft. rewrite defer_left by assumption.
    cbn [fst]. rewrite doneCount_app, Hbody. split; [reflexivity|].
    exists (fst (consume p w)). split; [reflexivity|].
    now apply doneCount_zero.
  - rewrite snd_defer. intros Hwait. unfold defer. rewrite Hwait. exact Hbody.
Qed.

(** C9: the messages [Run] sends are built from records the broker
    delivered, each sent right after its byte count is reported and
    before the next record is read, in the order of delivery; if the
    delivered offsets increase strictly, so do the offsets sent. *)
Theorem Run_sends_in_offset_order (p : PartitionConsumer.t) (w : World) :
  StronglySorted Z.lt (map ConsumerMessage.Offset (delivered (selects w))) ->
  (exists (vs : list (ConsumerMessage.t * bool)) (rest : list ConsumerMessage.t),
      delivered (selects w) = map fst vs ++ rest
      /\ filter isProgress (fst (Run p w))
         = flat_map (fun v => block (fst v) (snd v)) vs
      /\ sends (fst (Run p w)) = map topicMessage (map fst (filter snd vs)))
  /\ StronglySorted Z.lt (map TopicMessage.Offset (sends (fst (Run p w)))).
Proof.
  intros Hsorted.
  destruct (Run_blocks p w) as (vs & rest & Htr & Hdel).
  assert (Hsends : sends (fst (Run p w)) = map topicMessage (map fst (filter snd vs)))
    by now rewrite <- sends_progress, Htr, sends_pairs.
  split.
  - exists vs, rest. repeat split; assumption.
  - rewrite Hsends, !map_map.
    rewrite (map_ext _ (fun v => ConsumerMessage.Offset (fst v)))
      by (intros v; apply topicMessage_Offset).
    apply StronglySorted_map_filter.
    rewrite Hdel, map_app, map_map in Hsorted.
    now apply StronglySorted_prefix in Hsorted.
Qed.

End TaskClaims.

(** ** The exit paths of [Run] on concrete executions *)

(** The partition cannot be opened. *)
Example Run_open_failure :
  @Run jsonDecoders embeddingParser acceptEngine (consumer "" 10 15 100)
    {| consumeErr := Some "no broker"%string; closeErr := None; selects := [] |}
  = ([Log LogError "couldn't consume partition";
      OnError "couldn't consume partition 0: no broker";
      Done], Returned).
Proof. reflexivity. Qed.

(** The script does not compile. *)
Example Run_setup_failure :
  @Run jsonDecoders embeddingParser syntaxErrorEngine
    (consumer "return (" 10 15 100) (healthy [])
  = ([Log LogError "failed to setup interpreter";
      OnError "failed to setup interpreter: failed to compile given interpreter code: SyntaxError";
      Close; Done], Returned).
Proof. reflexivity. Qed.

(** The message channel is closed. *)
Example Run_channel_closed :
  @Run jsonDecoders embeddingParser acceptEngine (consumer "" 10 15 100)
    (healthy [ChannelClosed])
  = ([Log LogError "partition Consumer message channel has unexpectedly closed";
      OnError "partition Consumer (partitionId=0) failed to get the next message (see server log)";
      Close; Done], Returned).
Proof. reflexivity. Qed.

(** The call of the script is unwound by the interrupt function. *)
Example Run_evaluation_error :
  @Run jsonDecoders embeddingParser
    (scriptEngine (fun _ => CallPanic (PanicString errTimeout)))
    (consumer "while (true) {}" 10 15 100)
    (healthy [Message (record 10 "key" "value") Sent])
  = ([OnMessageConsumed 8;
      Log LogInfo "failed to check if message is ok";
      OnError "failed to check if message is ok (partition: '0', offset: '10')";
      Close; Done], Returned).
Proof. reflexivity. Qed.

(** A panic that is not the timeout goes on through [Run]; the deferred
    calls still run. *)
Example Run_panic :
  @Run jsonDecoders embeddingParser
    (scriptEngine (fun _ => CallPanic (PanicOther "runtime error")))
    (consumer "return true" 10 15 100)
    (healthy [Message (record 10 "key" "value") Sent])
  = ([OnMessageConsumed 8; Close; Done], Panicked (PanicOther "runtime error")).
Proof. reflexivity. Qed.

(** The end offset is reached: six records from 10 to 15 are sent. *)
Example Run_bounds_reached :
  List.map TopicMessage.Offset
    (sends (fst (@Run jsonDecoders embeddingParser acceptEngine
                   (consumer "" 10 15 100) (healthy (map deliver tenRecords)))))
  = [10; 11; 12; 13; 14; 15]
  /\ snd (@Run jsonDecoders embeddingParser acceptEngine
            (consumer "" 10 15 100) (healthy (map deliver tenRecords)))
     = Returned.
Proof. split; reflexivity. Qed.

(** The context is cancelled, in the outer or in the inner [select]. *)
Example Run_cancelled :
  @Run jsonDecoders embeddingParser acceptEngine (consumer "" 10 15 100)
    (healthy [CtxDone])
  = ([Log LogDebug "consume request aborted because context has been cancelled";
      Close; Done], Returned)
  /\ @Run jsonDecoders embeddingParser acceptEngine (consumer "" 10 15 100)
       (healthy [Message (record 10 "key" "value") SendCtxDone])
     = ([OnMessageConsumed 8; Close; Done], Returned).
Proof. split; reflexivity. Qed.

(** No input yet: the task waits and has signalled nothing. *)
Example Run_waiting :
  @Run jsonDecoders embeddingParser acceptEngine (consumer "" 10 15 100)
    (healthy [Message (record 10 "key" "value") Sent])
  = ([OnMessageConsumed 8; Send (@topicMessage jsonDecoders (record 10 "key" "value"))],
     Waiting).
Proof. reflexivity. Qed.

(** A filter that rejects the odd offsets: offsets 10, 12 and 14 are sent. *)
Example Run_even_offsets :
  List.map TopicMessage.Offset
    (sends (fst (@Run jsonDecoders embeddingParser
                   (scriptEngine (fun args =>
                      match args with
                      | (_, offset, _, _, _) => CallValue (JSBoolean (Z.even offset))
                      end))
                   (consumer "return offset % 2 == 0" 10 15 100)
                   (healthy (map deliver tenRecords)))))
  = [10; 12; 14].
Proof. reflexivity. Qed.

(** ** The claims on concrete executions *)

(** Ten records, all accepted, at most three messages: the first three
    records are sent and the task returns. *)
Lemma Run_stops_at_first_bound_witness :
  let p := consumer "" 10 1000 3 in
  let w := healthy (map deliver tenRecords) in
  sends (fst (@Run jsonDecoders embeddingParser acceptEngine p w))
  = map (@topicMessage jsonDecoders) (firstn 3 tenRecords)
  /\ List.length
       (sends (fst (@Run jsonDecoders embeddingParser acceptEngine p w)))
     = 3%nat
  /\ List.length
       (consumed (fst (@Run jsonDecoders embeddingParser acceptEngine p w)))
     = 3%nat
  /\ errors (fst (@Run jsonDecoders embeddingParser acceptEngine p w)) = []
  /\ snd (@Run jsonDecoders embeddingParser acceptEngine p w) = Returned.
Proof.
  intros p w.
  refine (proj2 (proj2 (@Run_stops_at_first_bound jsonDecoders embeddingParser
                          acceptEngine p w AcceptAll (fun _ => true)
                          tenRecords _ _ _ _ _ _)) _ _ _).
  - simpl. lia.
  - reflexivity.
  - reflexivity.
  - intros m. reflexivity.
  - reflexivity.
  - simpl. lia.
  - reflexivity.
  - reflexivity.
  - intros m Hm. split; [reflexivity|].
    simpl in Hm. repeat (destruct Hm as [<- | Hm]; [simpl; lia|]). contradiction.
Defined.

(** A script that returns the string [yes]: the value is not a boolean,
    the filter answers [true] without error, and the record is sent. *)
Lemma non_boolean_return_counterexample :
  let p := consumer "return 'yes'" 10 1000 3 in
  let m := record 10 "key" "value" in
  let args := @filterArguments jsonDecoders m in
  @otto_IsBoolean embeddingParser yesEngine (JSString "yes") = false
  /\ @scriptCall embeddingParser yesEngine tt tt args
       (interpreterArguments.Key args) (interpreterArguments.Value args)
     = (CallValue (JSString "yes"), tt)
  /\ @isMessageOk embeddingParser yesEngine tt tt args = (Return true None, tt)
  /\ sends (fst (@Run jsonDecoders embeddingParser yesEngine p
                   (healthy [Message m Sent; CtxDone])))
     = [@topicMessage jsonDecoders m]
  /\ errors (fst (@Run jsonDecoders embeddingParser yesEngine p
                    (healthy [Message m Sent; CtxDone])))
     = [].
Proof. repeat split. Qed.

(** The script returns the string [yes], the engine converts it to
    [true], and the record is sent. *)
Lemma ToBoolean_decides_evaluation_witness :
  let p := consumer "return 'yes'" 10 1000 3 in
  let m := record 10 "key" "value" in
  @isMessageOk embeddingParser yesEngine tt tt (@filterArguments jsonDecoders m)
  = (Return true None, tt)
  /\ exists tr,
       fst (@loop jsonDecoders embeddingParser yesEngine p
              (@Script embeddingParser yesEngine tt tt) 0 [Message m Sent; CtxDone])
       = OnMessageConsumed (int64 (messageSize m))
           :: Send (@topicMessage jsonDecoders m) :: tr.
Proof.
  intros p m.
  pose proof (proj1 (@ToBoolean_decides_evaluation jsonDecoders embeddingParser
                       yesEngine p tt tt tt 0 m Sent [CtxDone]
                       (interpreterArguments.Key (@filterArguments jsonDecoders m))
                       (interpreterArguments.Value (@filterArguments jsonDecoders m))
                       (JSString "yes") eq_refl eq_refl eq_refl) true eq_refl) as H.
  split; [exact (proj1 H)|].
  exact (proj2 (proj2 H) eq_refl eq_refl).
Defined.

(** A cancelled task has written to [DoneCh] once, at its end. *)
Lemma Run_signals_done_once_witness :
  let p := consumer "" 10 1000 3 in
  let w := healthy [Message (record 10 "key" "value") Sent; CtxDone] in
  doneCount (fst (@Run jsonDecoders embeddingParser acceptEngine p w))
  = 1%nat
  /\ exists tr,
       fst (@Run jsonDecoders embeddingParser acceptEngine p w)
       = tr ++ [Done]
       /\ ~ In Done tr.
Proof.
  intros p w.
  apply (proj1 (@Run_signals_done_once jsonDecoders embeddingParser
                  acceptEngine p w)).
  discriminate.
Defined.

Lemma Run_sends_in_offset_order_witness :
  let p := consumer "" 10 15 100 in
  let w := healthy (map deliver tenRecords) in
  StronglySorted Z.lt
    (map TopicMessage.Offset
       (sends (fst (@Run jsonDecoders embeddingParser acceptEngine p w)))).
Proof.
  intros p w.
  apply (proj2 (@Run_sends_in_offset_order jsonDecoders embeddingParser
                  acceptEngine p w
                  ltac:(simpl; repeat (constructor; try lia)))).
Defined.

(* ===================================================================== *)
(** * Further properties of the code *)
(* ===================================================================== *)

(** ** The classification of payloads *)

Lemma TrimLeft_head_out (c : byte) (rest cutset : list byte) :
  ~ In c cutset -> TrimLeft (c :: rest) cutset = c :: rest.
Proof.
  intros Hc. simpl. destruct (existsb (Byte.eqb c) cutset) eqn:He; [|reflexivity].
  apply In_existsb_eqb in He. contradiction.
Qed.

Lemma ascii_utf8 (s : list byte) :
  Forall (fun c => u8 c < 0x80) s -> utf8.Valid s = true.
Proof.
  induction 1 as [|c r Hc _ IH]; [reflexivity|].
  simpl. apply Z.ltb_lt in Hc. rewrite Hc. exact IH.
Qed.

Lemma base64_enc_char (v : Z) : In (base64.enc v) base64Chars.
Proof.
  right. unfold base64.enc. apply nth_In.
  assert (0 <= v mod 64 < 64) by (apply Z.mod_pos_bound; lia).
  change (List.length base64.encodeStd) with 64%nat. lia.
Qed.

(** What the characters of a base64 text have in common: they are ASCII,
    none is white space, none opens a JSON or an XML payload. *)
Lemma base64Chars_plain :
  Forall (fun c => u8 c < 0x80
                   /\ ~ In c whitespace
                   /\ Byte.eqb c "[" = false
                   /\ Byte.eqb c "{" = false
                   /\ Byte.eqb c "<" = false) base64Chars.
Proof.
  unfold base64Chars.
  repeat (constructor;
          [repeat split; try reflexivity;
           intros H; simpl in H; decompose [or] H; discriminate || contradiction|]).
  constructor.
Qed.

Lemma base64_encode_chars_bounded (n : nat) : forall src : list byte,
  (List.length src <= n)%nat ->
  Forall (fun c => In c base64Chars) (base64.EncodeToString src)
  /\ List.length (base64.EncodeToString src)
     = (4 * ((List.length src + 2) / 3))%nat.
Proof.
  induction n as [|n IH]; intros src Hlen.
  - destruct src; [split; [constructor | reflexivity] | simpl in Hlen; lia].
  - destruct src as [|a [|b [|c rest]]].
    + split; [constructor | reflexivity].
    + split; [|reflexivity]. cbn [base64.EncodeToString].
      repeat (apply Forall_cons;
              [first [apply base64_enc_char | left; reflexivity]|]).
      apply Forall_nil.
    + split; [|reflexivity]. cbn [base64.EncodeToString].
      repeat (apply Forall_cons;
              [first [apply base64_enc_char | left; reflexivity]|]).
      apply Forall_nil.
    + destruct (IH rest) as [Hchars Hl]; [simpl in Hlen; lia|].
      cbn [base64.EncodeToString]. split.
      * repeat (apply Forall_cons; [apply base64_enc_char|]). exact Hchars.
      * cbn [List.length]. rewrite Hl.
        replace (S (S (S (List.length rest))) + 2)%nat
          with (List.length rest + 2 + 1 * 3)%nat by lia.
        rewrite Nat.div_add by lia. lia.
Qed.

Section ClassificationProperties.
Context {D : Decoders}.

Lemma getValue_binary_inv (value : slice) :
  fst (getValue value) = valueTypeBinary ->
  data value <> []
  /\ getValue value = embed valueTypeBinary (Some (base64.EncodeToString (data value))).
Proof.
  getValue_cases value; try discriminate.
  all: intros _; split; [|reflexivity].
  all: apply Z.eqb_neq in Hlen; now rewrite len_zero_iff in Hlen.
Qed.

(** X1: a payload that is not empty, is valid UTF-8 and is taken neither
    as JSON nor as XML is returned as text, the embedding holding the very
    slice that was given. *)
Theorem getValue_text_preserved (value : slice) :
  data value <> [] ->
  utf8.Valid (data value) = true ->
  acceptedAsJSON value = false ->
  convertedAsXML value = false ->
  getValue value
  = (valueTypeText,
     {| DirectEmbedding.ValueType := valueTypeText; DirectEmbedding.Value := value |}).
Proof.
  intros Hne Hutf Hj Hx.
  unfold acceptedAsJSON in Hj. unfold convertedAsXML in Hx.
  getValue_cases value; rewrite ?Htrim, ?Hjson, ?Hval, ?Hxml, ?Hconv in *;
    try discriminate; try reflexivity.
  apply Z.eqb_eq, len_zero_iff in Hlen. contradiction.
Qed.

(** X2: a payload whose first byte after the leading white space is ['<']
    and that the converter accepts is returned as XML, the embedding
    holding the JSON bytes the converter produced and not the payload,
    whether the payload is valid UTF-8 or not. *)
Theorem getValue_xml_converted (value : slice) (rest json : list byte) :
  TrimLeft (data value) whitespace = "<"%byte :: rest ->
  Convert ("<"%byte :: rest) = Ok json ->
  getValue value
  = (valueTypeXML,
     {| DirectEmbedding.ValueType := valueTypeXML;
        DirectEmbedding.Value := Some json |}).
Proof.
  intros Htrim Hconv. unfold getValue.
  assert (Hlen : (len value =? 0) = false).
  { apply Z.eqb_neq. rewrite len_zero_iff. intros Hnil.
    rewrite Hnil in Htrim. discriminate. }
  rewrite Hlen, Htrim. cbn [Byte.eqb orb]. rewrite Hconv. reflexivity.
Qed.

(** X3: what [getValue] returns as JSON is a fixed point: the embedding
    is the payload from its first significant byte on, it has no leading
    white space, and [getValue] returns it unchanged when applied to it. *)
Theorem getValue_json_fixpoint (value : slice) (e : DirectEmbedding.t) :
  getValue value = (valueTypeJSON, e) ->
  (exists ws, data value = ws ++ data (DirectEmbedding.Value e)
              /\ Forall (fun b => In b whitespace) ws)
  /\ TrimLeft (data (DirectEmbedding.Value e)) whitespace
     = data (DirectEmbedding.Value e)
  /\ getValue (DirectEmbedding.Value e) = (valueTypeJSON, e).
Proof.
  intros Hget.
  assert (Hty : fst (getValue value) = valueTypeJSON) by now rewrite Hget.
  destruct (getValue_json_inv value Hty) as (c & rest & Htrim & Hc & Hval).
  rewrite (getValue_json value c rest Htrim Hc Hval) in Hget.
  unfold embed in Hget. inversion Hget; subst e; clear Hget.
  cbn [DirectEmbedding.Value data].
  assert (Hout : ~ In c whitespace)
    by (destruct Hc; subst c; simpl; intros H; decompose [or] H;
        discriminate || contradiction).
  assert (Hfix : TrimLeft (c :: rest) whitespace = c :: rest)
    by now apply TrimLeft_head_out.
  split; [|split].
  - destruct (TrimLeft_spec (data value) whitespace) as (ws & Heq & Hws & _).
    exists ws. rewrite Htrim in Heq. now split.
  - exact Hfix.
  - apply (getValue_json (Some (c :: rest)) c rest); assumption.
Qed.

(** X4: the embedding of a binary payload is plain text: it consists of
    characters of the base64 alphabet and of padding, four for every three
    bytes of the payload, the last group being padded; it is valid UTF-8,
    and [getValue] applied to it returns it as text, unchanged. *)
Theorem getValue_binary_is_text (value : slice) :
  fst (getValue value) = valueTypeBinary ->
  let b64 := DirectEmbedding.Value (snd (getValue value)) in
  Forall (fun c => In c base64Chars) (data b64)
  /\ List.length (data b64) = (4 * ((List.length (data value) + 2) / 3))%nat
  /\ utf8.Valid (data b64) = true
  /\ getValue b64 = embed valueTypeText b64.
Proof.
  intros Hbin b64. subst b64.
  destruct (getValue_binary_inv value Hbin) as [Hne Hget]. rewrite Hget.
  cbn [snd embed DirectEmbedding.Value data].
  destruct (base64_encode_chars_bounded (List.length (data value)) (data value)
              (le_n _)) as [Hchars Hl].
  assert (Hplain : Forall (fun c => u8 c < 0x80
                                    /\ ~ In c whitespace
                                    /\ Byte.eqb c "[" = false
                                    /\ Byte.eqb c "{" = false
                                    /\ Byte.eqb c "<" = false)
                          (base64.EncodeToString (data value))).
  { pose proof base64Chars_plain as Hall. rewrite Forall_forall in *.
    intros c Hc. apply Hall, Hchars, Hc. }
  assert (Hutf : utf8.Valid (base64.EncodeToString (data value)) = true).
  { apply ascii_utf8. rewrite Forall_forall in *. intros c Hc. apply Hplain, Hc. }
  repeat split; try assumption.
  destruct (base64.EncodeToString (data value)) as [|c rest] eqn:Henc.
  - destruct (data value) as [|a [|b [|c' r]]]; [contradiction|discriminate..].
  - apply Forall_inv in Hplain. destruct Hplain as (_ & Hws & Hb1 & Hb2 & Hb3).
    unfold getValue.
    assert (Hlen : (len (Some (c :: rest)) =? 0) = false) by reflexivity.
    rewrite Hlen. cbn [data]. rewrite (TrimLeft_head_out c rest whitespace Hws).
    rewrite Hb1, Hb2, Hb3. cbn [orb]. rewrite Hutf. reflexivity.
Qed.

End ClassificationProperties.

Lemma getValue_text_preserved_witness :
  @getValue jsonDecoders (B " {not json")
  = (valueTypeText,
     {| DirectEmbedding.ValueType := valueTypeText;
        DirectEmbedding.Value := B " {not json" |}).
Proof.
  apply (@getValue_text_preserved jsonDecoders (B " {not json"));
    try reflexivity. discriminate.
Defined.

(** A converter that turns the element [<a/>] into an object with the key
    [a] and fails on everything else; see [xmlDecoders]. *)
Lemma getValue_xml_converted_witness :
  @getValue xmlDecoders (B "  <a/>")
  = (valueTypeXML,
     {| DirectEmbedding.ValueType := valueTypeXML;
        DirectEmbedding.Value := Some emptyElementJSON |}).
Proof.
  apply (@getValue_xml_converted xmlDecoders (B "  <a/>") (bytes_of_string "a/>")
           emptyElementJSON); reflexivity.
Defined.

Lemma getValue_json_fixpoint_witness :
  @getValue jsonDecoders (B "[1, 2]")
  = (valueTypeJSON,
     {| DirectEmbedding.ValueType := valueTypeJSON;
        DirectEmbedding.Value := B "[1, 2]" |}).
Proof.
  apply (proj2 (proj2 (@getValue_json_fixpoint jsonDecoders (B "  [1, 2]")
                         {| DirectEmbedding.ValueType := valueTypeJSON;
                            DirectEmbedding.Value := B "[1, 2]" |} eq_refl))).
Defined.

Lemma getValue_binary_is_text_witness :
  @getValue jsonDecoders (B "/wA=") = embed valueTypeText (B "/wA=").
Proof.
  apply (proj2 (proj2 (proj2 (@getValue_binary_is_text jsonDecoders
                                 (Some [xff; x00]) eq_refl)))).
Defined.

(** ** The message and the arguments built for a record *)

Section MessageProperties.
Context {D : Decoders} {P : Parser} {E : Otto}.

(** X5: the message built for a record is flagged null exactly when the
    value of the record is the nil slice; a value of length zero, nil or
    not, gives the empty value type, the size 0 and an embedding that
    holds the slice as it came. *)
Theorem topicMessage_null_value (m : ConsumerMessage.t) :
  (TopicMessage.IsValueNull (topicMessage m) = true
   <-> ConsumerMessage.Value m = None)
  /\ (len (ConsumerMessage.Value m) = 0 ->
      TopicMessage.ValueType (topicMessage m) = ""%string
      /\ TopicMessage.Size (topicMessage m) = 0
      /\ DirectEmbedding.Value (TopicMessage.Value (topicMessage m))
         = ConsumerMessage.Value m).
Proof.
  unfold topicMessage.
  destruct (getValue (ConsumerMessage.Value m)) as [vType value] eqn:Hv.
  destruct (getValue (ConsumerMessage.Key m)) as [kType key].
  cbn [TopicMessage.IsValueNull TopicMessage.ValueType TopicMessage.Size
       TopicMessage.Value].
  split.
  - destruct (ConsumerMessage.Value m); simpl; split; congruence.
  - intros Hlen. unfold getValue in Hv.
    apply Z.eqb_eq in Hlen as Hb. rewrite Hb in Hv.
    unfold embed in Hv. inversion Hv; subst. repeat split; assumption.
Qed.

(** X6: in the message built for a record, [KeyType] and [ValueType] are
    the tags of the embeddings [Key] and [Value]; partition and offset are
    those of the record and the timestamp is its time in seconds; the
    filter is given the same two embeddings, partition and offset as the
    message holds. *)
Theorem topicMessage_agrees (m : ConsumerMessage.t) :
  TopicMessage.KeyType (topicMessage m)
  = DirectEmbedding.ValueType (TopicMessage.Key (topicMessage m))
  /\ TopicMessage.ValueType (topicMessage m)
     = DirectEmbedding.ValueType (TopicMessage.Value (topicMessage m))
  /\ TopicMessage.PartitionID (topicMessage m) = ConsumerMessage.Partition m
  /\ TopicMessage.Offset (topicMessage m) = ConsumerMessage.Offset m
  /\ TopicMessage.Timestamp (topicMessage m)
     = time.Unix (interpreterArguments.Timestamp (filterArguments m))
  /\ interpreterArguments.Key (filterArguments m) = TopicMessage.Key (topicMessage m)
  /\ interpreterArguments.Value (filterArguments m)
     = TopicMessage.Value (topicMessage m)
  /\ interpreterArguments.PartitionID (filterArguments m)
     = TopicMessage.PartitionID (topicMessage m)
  /\ interpreterArguments.Offset (filterArguments m)
     = TopicMessage.Offset (topicMessage m).
Proof.
  pose proof (getValue_tag (ConsumerMessage.Value m)) as Hv.
  pose proof (getValue_tag (ConsumerMessage.Key m)) as Hk.
  unfold topicMessage, filterArguments.
  destruct (getValue (ConsumerMessage.Value m)) as [vType value].
  destruct (getValue (ConsumerMessage.Key m)) as [kType key].
  cbn [fst snd] in Hv, Hk. cbn. repeat split; congruence.
Qed.

(** X7: [isMessageOk] gives a verdict without error exactly when both
    embeddings parse, the call of the script returns a value and the
    engine converts that value, the verdict being the converted value; and
    whenever it returns an error the boolean beside it is [false]. *)
Theorem isMessageOk_verdict (interpreter : otto_Object) (vm vm' : otto_VM)
    (args : interpreterArguments.t) :
  (forall isOk,
      isMessageOk interpreter vm args = (Return isOk None, vm')
      <-> exists key value val,
            Parse (interpreterArguments.Key args) = Ok key
            /\ Parse (interpreterArguments.Value args) = Ok value
            /\ scriptCall interpreter vm args key value = (CallValue val, vm')
            /\ otto_ToBoolean val = Ok isOk)
  /\ (forall isOk msg,
         isMessageOk interpreter vm args = (Return isOk (Some msg), vm') ->
         isOk = false).
Proof.
  unfold isMessageOk, scriptCall. split.
  - intros isOk. split.
    + destruct (Parse (interpreterArguments.Key args)) as [key|]; [|discriminate].
      destruct (Parse (interpreterArguments.Value args)) as [value|]; [|discriminate].
      destruct (otto_Call _ _ _ _) as [[val | msg | caught] vm1] eqn:Hcall.
      * destruct (otto_ToBoolean val) as [b|] eqn:Hconv; [|discriminate].
        intros H. inversion H; subst. exists key, value, val. auto.
      * discriminate.
      * destruct (isTimeoutPanic caught); discriminate.
    + intros (key & value & val & Hk & Hv & Hcall & Hconv).
      rewrite Hk, Hv, Hcall, Hconv. reflexivity.
  - intros isOk msg.
    destruct (Parse (interpreterArguments.Key args)) as [key|];
      [|intros H; now inversion H].
    destruct (Parse (interpreterArguments.Value args)) as [value|];
      [|intros H; now inversion H].
    destruct (otto_Call _ _ _ _) as [[val | e | caught] vm1].
    + destruct (otto_ToBoolean val); intros H; now inversion H.
    + intros H; now inversion H.
    + destruct (isTimeoutPanic caught); intros H; now inversion H.
Qed.

End MessageProperties.

(** A tombstone: a record whose value is the nil slice. *)
Lemma topicMessage_null_value_witness :
  let m := {| ConsumerMessage.Key := B "key"; ConsumerMessage.Value := None;
              ConsumerMessage.Partition := 0; ConsumerMessage.Offset := 10;
              ConsumerMessage.Timestamp :=
                {| time.Unix := 1600000010; time.Nanosecond := 0 |} |} in
  TopicMessage.ValueType (@topicMessage jsonDecoders m) = ""%string
  /\ TopicMessage.Size (@topicMessage jsonDecoders m) = 0
  /\ DirectEmbedding.Value (TopicMessage.Value (@topicMessage jsonDecoders m)) = None.
Proof.
  intros m. apply (proj2 (@topicMessage_null_value jsonDecoders m)). reflexivity.
Defined.

Lemma isMessageOk_verdict_witness :
  exists key value val,
    @Parse embeddingParser
      (interpreterArguments.Key (@filterArguments jsonDecoders (record 10 "key" "value")))
    = Ok key
    /\ @Parse embeddingParser
         (interpreterArguments.Value (@filterArguments jsonDecoders (record 10 "key" "value")))
       = Ok value
    /\ @scriptCall embeddingParser acceptEngine tt tt
         (@filterArguments jsonDecoders (record 10 "key" "value")) key value
       = (CallValue val, tt)
    /\ @otto_ToBoolean embeddingParser acceptEngine val = Ok true.
Proof.
  apply (proj1 (proj1 (@isMessageOk_verdict embeddingParser acceptEngine tt tt tt
                         (@filterArguments jsonDecoders (record 10 "key" "value")))
                  true)).
  reflexivity.
Defined.

(** ** The task as a whole *)

Lemma closeCount_app (tr1 tr2 : list Event) :
  closeCount (tr1 ++ tr2) = (closeCount tr1 + closeCount tr2)%nat.
Proof.
  induction tr1 as [|e tr1 IH]; [reflexivity|].
  destruct e; simpl; rewrite IH; reflexivity.
Qed.

Lemma removelast_filter_In (A : Type) (f : A -> bool) (x : A) (l : list A) :
  In x (removelast (filter f l)) -> In x (removelast l).
Proof.
  induction l as [|a l IH]; [simpl; tauto|].
  assert (Hl : In x (removelast (filter f l)) -> In x (removelast (a :: l))).
  { intros Hx. apply IH in Hx. destruct l; [contradiction|]. now right. }
  cbn [filter]. destruct (f a); [|apply Hl].
  destruct (filter f l) as [|b k] eqn:Hk; [simpl; tauto|].
  intros [Hx | Hx].
  - destruct l; [discriminate|]. now left.
  - apply Hl. exact Hx.
Qed.

Section TaskProperties.
Context {D : Decoders} {P : Parser} {E : Otto}.
Variable p : PartitionConsumer.t.

(** Once the loop has returned or panicked, input that follows is not
    read. *)
Lemma loop_exit_app :
  forall (pre : list SelectCase) (f : Filter) (count : Z) (post : list SelectCase),
    snd (loop p f count pre) <> Waiting ->
    loop p f count (pre ++ post) = loop p f count pre.
Proof.
  induction pre as [|c pre IH]; intros f count post Hexit.
  - simpl in Hexit. congruence.
  - destruct c as [m s | |]; [|reflexivity|reflexivity].
    cbn [app loop] in *.
    destruct (callFilter f (filterArguments m)) as [[isOK [msg|] | caught] f'];
      try reflexivity.
    destruct isOK; [destruct s|]; try reflexivity.
    + destruct (reachedEnd (PartitionConsumer.Req p) m (int64 (count + 1)));
        [reflexivity|].
      unfold emit in *. cbn [fst snd] in *. now rewrite IH.
    + destruct (reachedEnd (PartitionConsumer.Req p) m count); [reflexivity|].
      unfold emit in *. cbn [fst snd] in *. now rewrite IH.
Qed.

(** While the loop waits, it goes on with the input that follows from the
    state it has reached. *)
Lemma loop_waiting_app :
  forall (pre : list SelectCase) (f : Filter) (count : Z),
    snd (loop p f count pre) = Waiting ->
    exists f' count',
      forall post,
        loop p f count (pre ++ post)
        = (fst (loop p f count pre) ++ fst (loop p f' count' post),
           snd (loop p f' count' post)).
Proof.
  induction pre as [|c pre IH]; intros f count Hwait.
  - exists f, count. intros post. simpl. now destruct (loop p f count post).
  - destruct c as [m s | |]; [|discriminate|discriminate].
    cbn [app loop] in *.
    destruct (callFilter f (filterArguments m)) as [[isOK [msg|] | caught] f'];
      try discriminate.
    destruct isOK; [destruct s|]; try discriminate.
    + destruct (reachedEnd (PartitionConsumer.Req p) m (int64 (count + 1)));
        [discriminate|].
      unfold emit in *. cbn [fst snd] in *.
      destruct (IH f' (int64 (count + 1)) Hwait) as (f2 & c2 & Happ).
      exists f2, c2. intros post. rewrite Happ. reflexivity.
    + destruct (reachedEnd (PartitionConsumer.Req p) m count); [discriminate|].
      unfold emit in *. cbn [fst snd] in *.
      destruct (IH f' count Hwait) as (f2 & c2 & Happ).
      exists f2, c2. intros post. rewrite Happ. reflexivity.
Qed.

(** The loop reports at most one error, as its last event, and then it
    has returned. *)
Lemma loop_errors :
  forall (inputs : list SelectCase) (f : Filter) (count : Z),
    errors (fst (loop p f count inputs)) = []
    \/ exists tr msg,
         loop p f count inputs = (tr ++ [OnError msg], Returned)
         /\ errors tr = [].
Proof.
  induction inputs as [|c inputs IH]; intros f count; [now left|].
  destruct c as [m s | |].
  - cbn [loop].
    destruct (callFilter f (filterArguments m)) as [[isOK [msg|] | caught] f'].
    + right. eexists [_; _], _. split; reflexivity.
    + assert (Hstep : forall evs c',
                 errors evs = [] ->
                 errors (fst (emit evs (loop p f' c' inputs))) = []
                 \/ exists tr msg,
                      emit evs (loop p f' c' inputs) = (tr ++ [OnError msg], Returned)
                      /\ errors tr = []).
      { intros evs c' Hevs. destruct (IH f' c') as [Hnone | (tr & msg & Hl & Htr)].
        - left. unfold emit. cbn [fst]. now rewrite errors_app, Hevs, Hnone.
        - right. exists (evs ++ tr), msg. rewrite Hl. unfold emit. cbn [fst snd].
          rewrite app_assoc, errors_app, Hevs, Htr. split; reflexivity. }
      destruct isOK; [destruct s|]; try (now left).
      * destruct (reachedEnd (PartitionConsumer.Req p) m (int64 (count + 1)));
          [now left|].
        unfold emit at 1 3. cbn [fst snd].
        destruct (Hstep [OnMessageConsumed (int64 (messageSize m));
                         Send (topicMessage m)] (int64 (count + 1)) eq_refl)
          as [H | (tr & msg & H & Htr)].
        -- left. exact H.
        -- right. exists tr, msg. split; [exact H | exact Htr].
      * destruct (reachedEnd (PartitionConsumer.Req p) m count); [now left|].
        apply (Hstep [OnMessageConsumed (int64 (messageSize m))] count eq_refl).
    + now left.
  - right. eexists [_], _. split; reflexivity.
  - now left.
Qed.

(** A panic that leaves the loop is not the timeout, and no error was
    reported before it. *)
Lemma loop_panic :
  forall (inputs : list SelectCase) (f : Filter) (count : Z) (caught : PanicValue),
    snd (loop p f count inputs) = Panicked caught ->
    isTimeoutPanic caught = false /\ errors (fst (loop p f count inputs)) = [].
Proof.
  induction inputs as [|c inputs IH]; intros f count caught; [discriminate|].
  destruct c as [m s | |]; [|discriminate|discriminate].
  cbn [loop].
  destruct (callFilter f (filterArguments m)) as [[isOK [msg|] | caught'] f'] eqn:Hcall;
    try discriminate.
  - destruct isOK; [destruct s|]; try discriminate.
    + destruct (reachedEnd (PartitionConsumer.Req p) m (int64 (count + 1)));
        [discriminate|].
      unfold emit. cbn [fst snd]. intros H. apply IH in H.
      split; [tauto|]. now rewrite !errors_app, (proj2 H).
    + destruct (reachedEnd (PartitionConsumer.Req p) m count); [discriminate|].
      unfold emit. cbn [fst snd]. intros H. apply IH in H.
      split; [tauto|]. now rewrite !errors_app, (proj2 H).
  - unfold emit. cbn [fst snd]. intros H. inversion H; subst caught'.
    split; [|reflexivity].
    destruct f as [|interpreter vm]; [discriminate|].
    cbn [callFilter] in Hcall. unfold isMessageOk in Hcall.
    destruct (Parse _); [|discriminate].
    destruct (Parse _); [|discriminate].
    destruct (otto_Call _ _ _ _) as [[val | e | c0] vm1].
    + destruct (otto_ToBoolean val); discriminate.
    + discriminate.
    + destruct (isTimeoutPanic c0) eqn:Ht; [discriminate|].
      inversion Hcall; subst. exact Ht.
Qed.

(** The number of messages the loop sends from a count below the
    maximum. *)
Lemma loop_sends_bound :
  forall (inputs : list SelectCase) (f : Filter) (count : Z),
    0 <= count < PartitionConsumeRequest.MaxMessageCount (PartitionConsumer.Req p) ->
    PartitionConsumeRequest.MaxMessageCount (PartitionConsumer.Req p) < 2 ^ 63 ->
    Z.of_nat (List.length (sends (fst (loop p f count inputs))))
    <= PartitionConsumeRequest.MaxMessageCount (PartitionConsumer.Req p) - count.
Proof.
  induction inputs as [|c inputs IH]; intros f count Hc Hmax; [simpl; lia|].
  destruct c as [m s | |]; [|simpl; lia|simpl; lia].
  cbn [loop].
  destruct (callFilter f (filterArguments m)) as [[isOK [msg|] | caught] f'];
    try (simpl; lia).
  destruct isOK; [destruct s|]; try (simpl; lia).
  - rewrite (int64_small (count + 1)) by lia.
    destruct (reachedEnd (PartitionConsumer.Req p) m (count + 1)) eqn:Hend;
      [simpl; lia|].
    unfold emit. cbn [fst app sends List.length].
    apply Bool.orb_false_elim in Hend. destruct Hend as [_ Hne].
    apply Z.eqb_neq in Hne.
    specialize (IH f' (count + 1) ltac:(lia) Hmax). lia.
  - destruct (reachedEnd (PartitionConsumer.Req p) m count); [simpl; lia|].
    unfold emit. cbn [fst app sends]. apply IH; assumption.
Qed.

(** The records the loop processes: all but the last are below the end
    offset. *)
Lemma loop_blocks_below_end :
  forall (inputs : list SelectCase) (f : Filter) (count : Z),
    exists (vs : list (ConsumerMessage.t * bool)) (rest : list ConsumerMessage.t),
      filter isProgress (fst (loop p f count inputs))
      = flat_map (fun v => block (fst v) (snd v)) vs
      /\ delivered inputs = map fst vs ++ rest
      /\ Forall (fun v => ConsumerMessage.Offset (fst v)
                          < PartitionConsumeRequest.EndOffset (PartitionConsumer.Req p))
                (removelast vs).
Proof.
  induction inputs as [|c inputs IH]; intros f count.
  - exists [], []. repeat split. constructor.
  - destruct c as [m s | |].
    + cbn [loop delivered].
      assert (Hone : forall b,
                 exists vs rest,
                   block m b = flat_map (fun v => block (fst v) (snd v)) vs
                   /\ m :: delivered inputs = map fst vs ++ rest
                   /\ Forall (fun v => ConsumerMessage.Offset (fst v)
                                       < PartitionConsumeRequest.EndOffset
                                           (PartitionConsumer.Req p))
                             (removelast vs)).
      { intros b. exists [(m, b)], (delivered inputs).
        cbn [flat_map fst snd map app removelast]. rewrite app_nil_r.
        repeat split. constructor. }
      assert (Hmore : forall b f' c',
                 reachedEnd (PartitionConsumer.Req p) m c' = false ->
                 exists vs rest,
                   block m b ++ filter isProgress (fst (loop p f' c' inputs))
                   = flat_map (fun v => block (fst v) (snd v)) vs
                   /\ m :: delivered inputs = map fst vs ++ rest
                   /\ Forall (fun v => ConsumerMessage.Offset (fst v)
                                       < PartitionConsumeRequest.EndOffset
                                           (PartitionConsumer.Req p))
                             (removelast vs)).
      { intros b f' c' Hend.
        destruct (IH f' c') as (vs & rest & Htr & Hdel & Hbelow).
        exists ((m, b) :: vs), rest. cbn [flat_map fst snd map app].
        rewrite Htr, Hdel. repeat split.
        apply Bool.orb_false_elim in Hend. destruct Hend as [Hoff _].
        apply Z.leb_gt in Hoff.
        destruct vs as [|v vs']; [constructor|].
        change (removelast ((m, b) :: v :: vs')) with ((m, b) :: removelast (v :: vs')).
        constructor; assumption. }
      destruct (callFilter f (filterArguments m)) as [[isOK [msg|] | caught] f'].
      * apply (Hone false).
      * destruct isOK; [destruct s|].
        -- destruct (reachedEnd (PartitionConsumer.Req p) m (int64 (count + 1)))
             eqn:Hend; [apply (Hone true)|].
           apply (Hmore true f' (int64 (count + 1)) Hend).
        -- apply (Hone false).
        -- destruct (reachedEnd (PartitionConsumer.Req p) m count) eqn:Hend;
             [apply (Hone false)|].
           apply (Hmore false f' count Hend).
      * apply (Hone false).
    + exists [], (delivered (ChannelClosed :: inputs)). repeat split. constructor.
    + exists [], (delivered (CtxDone :: inputs)). repeat split. constructor.
Qed.

End TaskProperties.

Lemma removelast_map (A B : Type) (g : A -> B) (l : list A) :
  removelast (map g l) = map g (removelast l).
Proof.
  induction l as [|a [|b l] IH]; try reflexivity.
  change (g a :: removelast (map g (b :: l)) = g a :: map g (removelast (b :: l))).
  now rewrite IH.
Qed.

Section TaskShape.
Context {D : Decoders} {P : Parser} {E : Otto}.
Variable p : PartitionConsumer.t.

Lemma loop_closeCount :
  forall (inputs : list SelectCase) (f : Filter) (count : Z),
    closeCount (fst (loop p f count inputs)) = 0%nat.
Proof.
  induction inputs as [|c inputs IH]; intros f count; [reflexivity|].
  destruct c as [m s | |]; try reflexivity.
  cbn [loop].
  destruct (callFilter f (filterArguments m)) as [[isOK [msg|] | caught] f'];
    try reflexivity.
  destruct isOK, s; try reflexivity;
    match goal with
    | |- context [reachedEnd ?a ?b ?c] => destruct (reachedEnd a b c)
    end; try reflexivity; cbn [emit fst app closeCount]; apply IH.
Qed.

(** The three ways through [consume]. *)
Lemma consume_cases (w : World) :
  (exists msg tr, consumeErr w = Some msg
                  /\ consume p w = (tr, Returned)
                  /\ (exists e, tr = [Log LogError "couldn't consume partition"; OnError e]))
  \/ (exists msg tr, consumeErr w = None /\ SetupInterpreter p = Err msg
                     /\ consume p w = (tr ++ deferredClose w, Returned)
                     /\ (exists e, tr = [Log LogError "failed to setup interpreter";
                                         OnError e]))
  \/ (exists f, consumeErr w = None /\ SetupInterpreter p = Ok f
                /\ consume p w = defer (deferredClose w) (loop p f 0 (selects w))).
Proof.
  unfold consume. destruct (consumeErr w) as [msg|].
  - left. exists msg. eexists. repeat split. eexists. reflexivity.
  - destruct (SetupInterpreter p) as [f | msg].
    + right. right. exists f. repeat split.
    + right. left. exists msg. eexists. repeat split. eexists. reflexivity.
Qed.

Lemma Run_progress (w : World) :
  filter isProgress (fst (Run p w))
  = match consumeErr w, SetupInterpreter p with
    | None, Ok f => filter isProgress (fst (loop p f 0 (selects w)))
    | _, _ => []
    end.
Proof.
  unfold Run, consume. rewrite defer_progress by reflexivity.
  destruct (consumeErr w); [reflexivity|].
  rewrite defer_progress by apply deferredClose_progress.
  destruct (SetupInterpreter p); reflexivity.
Qed.

Lemma deferredClose_quiet (w : World) :
  sends (deferredClose w ++ [Done]) = []
  /\ consumed (deferredClose w ++ [Done]) = []
  /\ errors (deferredClose w ++ [Done]) = [].
Proof. unfold deferredClose. destruct (closeErr w); repeat split. Qed.

(** An execution reports no error, or its trace is cut by its one error
    report, after which only the deferred calls follow. *)
Lemma Run_errors_form (w : World) :
  errors (fst (Run p w)) = []
  \/ exists tr msg tail,
       Run p w = (tr ++ OnError msg :: tail, Returned)
       /\ errors tr = []
       /\ (tail = [Done] \/ tail = deferredClose w ++ [Done]).
Proof.
  unfold Run.
  destruct (consume_cases w)
    as [(msg & tr & Hopen & Hc & e & Htr)
       | [(msg & tr & Hopen & Hsetup & Hc & e & Htr)
         | (f & Hopen & Hsetup & Hc)]]; rewrite Hc.
  - right. subst tr. exists [Log LogError "couldn't consume partition"], e, [Done].
    repeat split. now left.
  - right. subst tr.
    exists [Log LogError "failed to setup interpreter"], e, (deferredClose w ++ [Done]).
    rewrite defer_returned. cbn [app]. repeat split. now right.
  - destruct (loop_errors p (selects w) f 0) as [Hnone | (tr & msg & Hl & Htr)].
    + left. destruct (deferredClose_quiet w) as (_ & _ & Hq).
      destruct (loop p f 0 (selects w)) as [tr out]. cbn [fst snd] in *.
      destruct out; unfold defer; cbn [fst snd]; try exact Hnone;
        rewrite <- app_assoc, errors_app, Hnone, Hq; reflexivity.
    + right. exists tr, msg, (deferredClose w ++ [Done]).
      rewrite Hl, !defer_returned. rewrite <- !app_assoc. cbn [app].
      repeat split; [assumption | now right].
Qed.

End TaskShape.

Section TaskExtras.
Context {D : Decoders} {P : Parser} {E : Otto}.

(** X8: when the partition was opened, an execution that leaves [Run]
    closes the partition consumer exactly once, after everything else and
    right before the write to [DoneCh]; when the partition could not be
    opened, or while the task still waits, nothing is closed. *)
Theorem Run_closes_once (p : PartitionConsumer.t) (w : World) :
  (consumeErr w = None ->
   snd (Run p w) <> Waiting ->
   closeCount (fst (Run p w)) = 1%nat
   /\ exists tr, fst (Run p w) = tr ++ deferredClose w ++ [Done]
                 /\ closeCount tr = 0%nat)
  /\ (consumeErr w <> None -> closeCount (fst (Run p w)) = 0%nat)
  /\ (snd (Run p w) = Waiting -> closeCount (fst (Run p w)) = 0%nat).
Proof.
  assert (Hdc : closeCount (deferredClose w ++ [Done]) = 1%nat)
    by (unfold deferredClose; destruct (closeErr w); reflexivity).
  unfold Run.
  destruct (consume_cases p w)
    as [(msg & tr & Hopen & Hc & e & Htr)
       | [(msg & tr & Hopen & Hsetup & Hc & e & Htr)
         | (f & Hopen & Hsetup & Hc)]]; rewrite Hc.
  - subst tr. repeat split; try reflexivity; intros; congruence.
  - subst tr. rewrite defer_returned, <- app_assoc. cbn [fst snd]. repeat split.
    + now rewrite closeCount_app, Hdc.
    + eexists. split; reflexivity.
    + intros; congruence.
    + discriminate.
  - pose proof (loop_closeCount p (selects w) f 0) as Hloop.
    destruct (loop p f 0 (selects w)) as [tr out]. cbn [fst] in Hloop.
    destruct out; unfold defer; cbn [fst snd]; repeat split;
      try congruence; try assumption;
      try (rewrite <- app_assoc, closeCount_app, Hloop, Hdc; reflexivity);
      try (exists tr; rewrite <- app_assoc; split; [reflexivity | assumption]).
Qed.

(** X9: an execution reports at most one error to the progress sink; if
    it reports one, the task has returned (it did not panic), and after
    the report nothing is consumed, sent or reported. *)
Theorem Run_reports_one_error (p : PartitionConsumer.t) (w : World) :
  (List.length (errors (fst (Run p w))) <= 1)%nat
  /\ (forall msg,
         In msg (errors (fst (Run p w))) ->
         snd (Run p w) = Returned
         /\ exists tr1 tr2,
              fst (Run p w) = tr1 ++ OnError msg :: tr2
              /\ errors tr1 = [] /\ errors tr2 = []
              /\ sends tr2 = [] /\ consumed tr2 = []).
Proof.
  destruct (Run_errors_form p w) as [Hnone | (tr & e & tail & HRun & Htr & Htail)].
  - rewrite Hnone. split; [simpl; lia | intros msg []].
  - assert (Hq : sends tail = [] /\ consumed tail = [] /\ errors tail = []).
    { destruct Htail; subst tail; [repeat split | apply deferredClose_quiet]. }
    destruct Hq as (Hs & Hc & He).
    rewrite HRun. cbn [fst snd].
    assert (Herrs : errors (tr ++ OnError e :: tail) = [e])
      by (rewrite errors_app, Htr; cbn [app errors]; now rewrite He).
    rewrite Herrs. split; [simpl; lia|].
    intros msg [<- | []]. split; [reflexivity|].
    exists tr, tail. repeat split; assumption.
Qed.

(** X10: with a maximum between 1 and the largest [int64], an execution
    never sends more than [MaxMessageCount] messages, whatever the broker
    delivers and whatever the filter answers. *)
Theorem Run_sends_at_most_max (p : PartitionConsumer.t) (w : World) :
  1 <= PartitionConsumeRequest.MaxMessageCount (PartitionConsumer.Req p) < 2 ^ 63 ->
  Z.of_nat (List.length (sends (fst (Run p w))))
  <= PartitionConsumeRequest.MaxMessageCount (PartitionConsumer.Req p).
Proof.
  intros Hmax. rewrite <- sends_progress, Run_progress.
  destruct (consumeErr w); [simpl; lia|].
  destruct (SetupInterpreter p) as [f|]; [|simpl; lia].
  rewrite sends_progress.
  pose proof (loop_sends_bound p (selects w) f 0 ltac:(lia) ltac:(lia)). lia.
Qed.

(** X11: of the records an execution processes, all but the last lie
    below [EndOffset]; so do all the messages sent but the last. *)
Theorem Run_stays_below_end (p : PartitionConsumer.t) (w : World) :
  (exists (vs : list (ConsumerMessage.t * bool)) (rest : list ConsumerMessage.t),
      filter isProgress (fst (Run p w))
      = flat_map (fun v => block (fst v) (snd v)) vs
      /\ delivered (selects w) = map fst vs ++ rest
      /\ Forall (fun v => ConsumerMessage.Offset (fst v)
                          < PartitionConsumeRequest.EndOffset (PartitionConsumer.Req p))
                (removelast vs))
  /\ Forall (fun tm => TopicMessage.Offset tm
                       < PartitionConsumeRequest.EndOffset (PartitionConsumer.Req p))
            (removelast (sends (fst (Run p w)))).
Proof.
  assert (Hvs : exists (vs : list (ConsumerMessage.t * bool))
                       (rest : list ConsumerMessage.t),
             filter isProgress (fst (Run p w))
             = flat_map (fun v => block (fst v) (snd v)) vs
             /\ delivered (selects w) = map fst vs ++ rest
             /\ Forall (fun v => ConsumerMessage.Offset (fst v)
                                 < PartitionConsumeRequest.EndOffset
                                     (PartitionConsumer.Req p))
                       (removelast vs)).
  { rewrite Run_progress. destruct (consumeErr w).
    - exists [], (delivered (selects w)). repeat split. constructor.
    - destruct (SetupInterpreter p) as [f|].
      + apply loop_blocks_below_end.
      + exists [], (delivered (selects w)). repeat split. constructor. }
  split; [exact Hvs|].
  destruct Hvs as (vs & rest & Htr & _ & Hbelow).
  rewrite <- sends_progress, Htr, sends_pairs, map_map, removelast_map.
  rewrite Forall_forall in *. intros tm Htm.
  apply in_map_iff in Htm. destruct Htm as (v & <- & Hv).
  rewrite topicMessage_Offset. apply Hbelow.
  eapply removelast_filter_In. exact Hv.
Qed.

(** X12: a panic that leaves [Run] is never the timeout of the watchdog,
    which [isMessageOk] turns into an error; it leaves without any error
    report, after the partition consumer was closed and [DoneCh] written. *)
Theorem Run_panic_is_not_timeout (p : PartitionConsumer.t) (w : World)
    (caught : PanicValue) :
  snd (Run p w) = Panicked caught ->
  isTimeoutPanic caught = false
  /\ errors (fst (Run p w)) = []
  /\ exists tr, fst (Run p w) = tr ++ deferredClose w ++ [Done].
Proof.
  unfold Run.
  destruct (consume_cases p w)
    as [(msg & tr & Hopen & Hc & e & Htr)
       | [(msg & tr & Hopen & Hsetup & Hc & e & Htr)
         | (f & Hopen & Hsetup & Hc)]]; rewrite Hc; try discriminate.
  rewrite !snd_defer. intros Hpanic.
  destruct (loop_panic p (selects w) f 0 caught Hpanic) as [Ht Herr].
  destruct (loop p f 0 (selects w)) as [tr out]. cbn [fst snd] in *. subst out.
  unfold defer. cbn [fst snd]. destruct (deferredClose_quiet w) as (_ & _ & Hq).
  repeat split; [assumption | |exists tr; now rewrite <- app_assoc].
  now rewrite <- app_assoc, errors_app, Herr, Hq.
Qed.

End TaskExtras.

Section TaskComposition.
Context {D : Decoders} {P : Parser} {E : Otto}.

(** What [Run] adds when the loop goes on from a waiting state. *)
Lemma Run_waiting_app (p : PartitionConsumer.t) (w : World) (pre : list SelectCase) :
  snd (Run p (withInputs w pre)) = Waiting ->
  exists f f' count',
    consumeErr w = None
    /\ SetupInterpreter p = Ok f
    /\ snd (loop p f 0 pre) = Waiting
    /\ fst (Run p (withInputs w pre)) = fst (loop p f 0 pre)
    /\ forall post,
         loop p f 0 (pre ++ post)
         = (fst (loop p f 0 pre) ++ fst (loop p f' count' post),
            snd (loop p f' count' post)).
Proof.
  unfold Run, consume, withInputs. cbn [consumeErr closeErr selects].
  rewrite snd_defer.
  destruct (consumeErr w); [discriminate|].
  rewrite snd_defer. destruct (SetupInterpreter p) as [f|]; [|discriminate].
  intros Hwait. destruct (loop_waiting_app p pre f 0 Hwait) as (f' & c' & Happ).
  exists f, f', c'. repeat split; try assumption.
  unfold defer. rewrite Hwait. cbn [snd]. rewrite Hwait. reflexivity.
Qed.

Lemma Run_ignores_input_after_exit_aux (p : PartitionConsumer.t) (w : World)
    (pre post : list SelectCase) :
  snd (Run p (withInputs w pre)) <> Waiting ->
  Run p (withInputs w (pre ++ post)) = Run p (withInputs w pre).
Proof.
  unfold Run, consume, withInputs. cbn [consumeErr closeErr selects].
  rewrite snd_defer.
  destruct (consumeErr w); [reflexivity|].
  rewrite snd_defer. unfold deferredClose. cbn [closeErr].
  destruct (SetupInterpreter p) as [f|]; [|reflexivity].
  intros Hexit. now rewrite loop_exit_app.
Qed.

(** X13: after an execution has left [Run], input that the broker or the
    context delivers later changes nothing: the execution on the longer
    input is the same. *)
Theorem Run_ignores_input_after_exit (p : PartitionConsumer.t) (w : World)
    (post : list SelectCase) :
  snd (Run p w) <> Waiting ->
  Run p (withInputs w (selects w ++ post)) = Run p w.
Proof.
  unfold Run, consume, withInputs. cbn [consumeErr closeErr selects].
  rewrite snd_defer.
  destruct (consumeErr w); [reflexivity|].
  rewrite snd_defer. unfold deferredClose. cbn [closeErr].
  destruct (SetupInterpreter p) as [f|]; [|reflexivity].
  intros Hexit. now rewrite loop_exit_app.
Qed.

(** X14: a cancellation ends the task and adds neither a message nor an
    error nor a byte count to what the input before it produced, whatever
    follows it; if the task was waiting when the cancellation came, the
    execution is that of the earlier input followed by the debug line,
    the closing of the partition consumer and the write to [DoneCh]. *)
Theorem Run_cancelled_adds_nothing (p : PartitionConsumer.t) (w : World)
    (pre post : list SelectCase) :
  snd (Run p (withInputs w (pre ++ CtxDone :: post))) <> Waiting
  /\ sends (fst (Run p (withInputs w (pre ++ CtxDone :: post))))
     = sends (fst (Run p (withInputs w pre)))
  /\ errors (fst (Run p (withInputs w (pre ++ CtxDone :: post))))
     = errors (fst (Run p (withInputs w pre)))
  /\ consumed (fst (Run p (withInputs w (pre ++ CtxDone :: post))))
     = consumed (fst (Run p (withInputs w pre)))
  /\ (snd (Run p (withInputs w pre)) = Waiting ->
      Run p (withInputs w (pre ++ CtxDone :: post))
      = (fst (Run p (withInputs w pre))
           ++ Log LogDebug "consume request aborted because context has been cancelled"
           :: deferredClose w ++ [Done],
         Returned)).
Proof.
  assert (Hcase : snd (Run p (withInputs w pre)) = Waiting
                  \/ snd (Run p (withInputs w pre)) <> Waiting)
    by (destruct (snd (Run p (withInputs w pre))); auto; right; discriminate).
  assert (Hwaiting : snd (Run p (withInputs w pre)) = Waiting ->
            Run p (withInputs w (pre ++ CtxDone :: post))
            = (fst (Run p (withInputs w pre))
                 ++ Log LogDebug "consume request aborted because context has been cancelled"
                 :: deferredClose w ++ [Done],
               Returned)).
  { intros Hwait.
    destruct (Run_waiting_app p w pre Hwait)
      as (f & f' & c' & Hopen & Hsetup & Hloop & Htr & Happ).
    rewrite Htr. unfold Run, consume, withInputs. cbn [consumeErr closeErr selects].
    rewrite Hopen, Hsetup, Happ. cbn [loop fst snd].
    rewrite !defer_returned. unfold deferredClose. cbn [closeErr].
    rewrite <- !app_assoc. reflexivity. }
  destruct Hcase as [Hwait | Hexit].
  - rewrite (Hwaiting Hwait). cbn [fst snd].
    destruct (deferredClose_quiet w) as (Hs & Hc & He).
    rewrite sends_app, errors_app, consumed_app. cbn [sends errors consumed].
    rewrite Hs, Hc, He, !app_nil_r. repeat split; try discriminate.
  - pose proof (Run_ignores_input_after_exit_aux p w pre (CtxDone :: post) Hexit) as Heq.
    rewrite Heq. repeat split; try assumption. intros Hwait. contradiction.
Qed.

End TaskComposition.

Section TaskEdges.
Context {D : Decoders} {P : Parser} {E : Otto}.

(** X15: when the message channel is closed while the task waits, the
    execution is that of the earlier input followed by the error line, one
    error report naming the partition, the closing of the partition
    consumer and the write to [DoneCh]; nothing after the closure is
    read. *)
Theorem Run_channel_closed_reports (p : PartitionConsumer.t) (w : World)
    (pre post : list SelectCase) :
  snd (Run p (withInputs w pre)) = Waiting ->
  Run p (withInputs w (pre ++ ChannelClosed :: post))
  = (fst (Run p (withInputs w pre))
       ++ [Log LogError "partition Consumer message channel has unexpectedly closed";
           OnError ("partition Consumer (partitionId="
                    ++ fmt_int (PartitionConsumeRequest.PartitionID
                                  (PartitionConsumer.Req p))
                    ++ ") failed to get the next message (see server log)")%string]
       ++ deferredClose w ++ [Done],
     Returned)
  /\ errors (fst (Run p (withInputs w pre))) = [].
Proof.
  intros Hwait.
  destruct (Run_waiting_app p w pre Hwait)
    as (f & f' & c' & Hopen & Hsetup & Hloop & Htr & Happ).
  split.
  - rewrite Htr. unfold Run, consume, withInputs. cbn [consumeErr closeErr selects].
    rewrite Hopen, Hsetup, Happ. cbn [loop fst snd].
    rewrite !defer_returned. unfold deferredClose. cbn [closeErr].
    rewrite <- !app_assoc. reflexivity.
  - rewrite Htr.
    destruct (loop_errors p pre f 0) as [Hnone | (tr & msg & Hl & _)];
      [assumption|].
    rewrite Hl in Hloop. discriminate.
Qed.

Lemma stopPoint_nonpositive (req : PartitionConsumeRequest.t)
    (accept : ConsumerMessage.t -> bool) :
  PartitionConsumeRequest.MaxMessageCount req <= 0 ->
  forall (rs : list ConsumerMessage.t) (count : Z),
    0 <= count ->
    (forall m, In m rs ->
               accept m = true
               /\ ConsumerMessage.Offset m < PartitionConsumeRequest.EndOffset req) ->
    stopPoint req accept count rs = None.
Proof.
  intros Hmax. induction rs as [|m rest IH]; intros count Hc Hall; [reflexivity|].
  cbn [stopPoint]. destruct (Hall m (or_introl eq_refl)) as [Ha Hoff].
  rewrite Ha. unfold reachedEnd.
  assert (H1 : (PartitionConsumeRequest.EndOffset req <=? ConsumerMessage.Offset m)
               = false) by (apply Z.leb_gt; lia).
  assert (H2 : (count + 1 =? PartitionConsumeRequest.MaxMessageCount req) = false)
    by (apply Z.eqb_neq; lia).
  rewrite H1, H2. cbn [orb].
  rewrite IH; [reflexivity | lia | intros m' Hm'; apply Hall; now right].
Qed.

(** X16: a maximum of zero or less does not cap the task.  If every
    record is accepted and lies below [EndOffset], every record is sent
    and the task waits for more; with a maximum of exactly zero, a first
    record that the filter rejects ends the task at once, nothing being
    sent. *)
Theorem Run_nonpositive_maximum (p : PartitionConsumer.t) (w : World) (f : Filter)
    (accept : ConsumerMessage.t -> bool) (rs : list ConsumerMessage.t) :
  PartitionConsumeRequest.MaxMessageCount (PartitionConsumer.Req p) <= 0 ->
  consumeErr w = None ->
  SetupInterpreter p = Ok f ->
  decides f accept ->
  selects w = map deliver rs ->
  Z.of_nat (List.length rs) < 2 ^ 63 ->
  ((forall m, In m rs ->
              accept m = true
              /\ ConsumerMessage.Offset m
                 < PartitionConsumeRequest.EndOffset (PartitionConsumer.Req p)) ->
   Run p w = (flat_map (fun m => block m true) rs, Waiting))
  /\ (PartitionConsumeRequest.MaxMessageCount (PartitionConsumer.Req p) = 0 ->
      forall m rest,
        rs = m :: rest ->
        accept m = false ->
        Run p w = (block m false ++ deferredClose w ++ [Done], Returned)).
Proof.
  intros Hmax Hopen Hsetup Hd Hsel Hlen.
  pose proof (Run_deliver p w f accept rs Hopen Hsetup Hd Hsel Hlen) as HRun.
  split.
  - intros Hall. rewrite HRun, (stopPoint_nonpositive _ accept Hmax rs 0) by
      (lia || assumption).
    f_equal. clear - Hall. induction rs as [|m rest IH]; [reflexivity|].
    cbn [flat_map]. rewrite (proj1 (Hall m (or_introl eq_refl))).
    f_equal. apply IH. intros m' Hm'. apply Hall. now right.
  - intros Hzero m rest Hrs Hrej. subst rs. rewrite HRun.
    cbn [stopPoint]. rewrite Hrej. unfold reachedEnd. rewrite Hzero.
    cbn [Z.eqb]. rewrite orb_true_r. cbn [firstn flat_map].
    rewrite Hrej, app_nil_r. reflexivity.
Qed.

End TaskEdges.

Section NoFilterCode.
Context {D : Decoders} {P : Parser}.
Variables E1 E2 : @Otto P.
Variable p : PartitionConsumer.t.

Lemma loop_accept_all_engine :
  forall (inputs : list SelectCase) (count : Z),
    @loop D P E1 p AcceptAll count inputs = @loop D P E2 p AcceptAll count inputs.
Proof.
  induction inputs as [|c inputs IH]; intros count; [reflexivity|].
  destruct c as [m s | |]; try reflexivity.
  cbn [loop callFilter]. rewrite !IH. reflexivity.
Qed.

Lemma loop_accept_all_no_panic :
  forall (inputs : list SelectCase) (count : Z) (caught : PanicValue),
    snd (@loop D P E1 p AcceptAll count inputs) <> Panicked caught.
Proof.
  induction inputs as [|c inputs IH]; intros count caught; [discriminate|].
  destruct c as [m s | |]; try discriminate.
  cbn [loop callFilter]. destruct s; [|discriminate].
  destruct (reachedEnd (PartitionConsumer.Req p) m (int64 (count + 1)));
    [discriminate|].
  unfold emit. cbn [fst snd]. apply IH.
Qed.

(** X17: with no filter code the script engine is neither created nor
    called: the execution is the same whatever the engine is, and no
    panic leaves [Run]. *)
Theorem Run_without_filter_code (w : World) :
  PartitionConsumer.FilterInterpreterCode p = ""%string ->
  @Run D P E1 p w = @Run D P E2 p w
  /\ forall caught, snd (@Run D P E1 p w) <> Panicked caught.
Proof.
  intros Hcode. unfold Run, consume, SetupInterpreter. rewrite Hcode.
  cbn [String.eqb]. split.
  - destruct (consumeErr w); [reflexivity|].
    now rewrite loop_accept_all_engine.
  - intros caught. rewrite snd_defer.
    destruct (consumeErr w); [discriminate|].
    rewrite snd_defer. apply loop_accept_all_no_panic.
Qed.

End NoFilterCode.

(** ** The further properties on concrete executions *)

Lemma Run_closes_once_witness :
  closeCount (fst (@Run jsonDecoders embeddingParser acceptEngine
                     (consumer "" 10 15 100) (healthy [ChannelClosed])))
  = 1%nat
  /\ exists tr,
       fst (@Run jsonDecoders embeddingParser acceptEngine
              (consumer "" 10 15 100) (healthy [ChannelClosed]))
       = tr ++ deferredClose (healthy [ChannelClosed]) ++ [Done]
       /\ closeCount tr = 0%nat.
Proof.
  apply (proj1 (@Run_closes_once jsonDecoders embeddingParser acceptEngine
                  (consumer "" 10 15 100) (healthy [ChannelClosed])));
    [reflexivity | discriminate].
Defined.

Lemma Run_reports_one_error_witness :
  snd (@Run jsonDecoders embeddingParser acceptEngine
         (consumer "" 10 15 100) (healthy [ChannelClosed]))
  = Returned
  /\ exists tr1 tr2,
       fst (@Run jsonDecoders embeddingParser acceptEngine
              (consumer "" 10 15 100) (healthy [ChannelClosed]))
       = tr1
         ++ OnError "partition Consumer (partitionId=0) failed to get the next message (see server log)"
         :: tr2
       /\ errors tr1 = [] /\ errors tr2 = []
       /\ sends tr2 = [] /\ consumed tr2 = [].
Proof.
  apply (proj2 (@Run_reports_one_error jsonDecoders embeddingParser acceptEngine
                  (consumer "" 10 15 100) (healthy [ChannelClosed]))).
  left. reflexivity.
Defined.

Lemma Run_sends_at_most_max_witness :
  Z.of_nat
    (List.length
       (sends (fst (@Run jsonDecoders embeddingParser acceptEngine
                      (consumer "" 10 1000 3) (healthy (map deliver tenRecords))))))
  <= 3.
Proof.
  apply (@Run_sends_at_most_max jsonDecoders embeddingParser acceptEngine
           (consumer "" 10 1000 3) (healthy (map deliver tenRecords))).
  simpl. lia.
Defined.

Lemma Run_panic_is_not_timeout_witness :
  isTimeoutPanic (PanicOther "runtime error") = false
  /\ errors (fst (@Run jsonDecoders embeddingParser panicEngine
                    (consumer "return key.x.y" 10 15 100)
                    (healthy [Message (record 10 "key" "value") Sent])))
     = []
  /\ exists tr,
       fst (@Run jsonDecoders embeddingParser panicEngine
              (consumer "return key.x.y" 10 15 100)
              (healthy [Message (record 10 "key" "value") Sent]))
       = tr ++ deferredClose (healthy [Message (record 10 "key" "value") Sent])
            ++ [Done].
Proof.
  apply (@Run_panic_is_not_timeout jsonDecoders embeddingParser panicEngine
           (consumer "return key.x.y" 10 15 100)
           (healthy [Message (record 10 "key" "value") Sent])
           (PanicOther "runtime error")).
  reflexivity.
Defined.

Lemma Run_ignores_input_after_exit_witness :
  @Run jsonDecoders embeddingParser acceptEngine (consumer "" 10 15 100)
    (withInputs (healthy [CtxDone]) ([CtxDone] ++ [Message (record 10 "key" "value") Sent]))
  = @Run jsonDecoders embeddingParser acceptEngine (consumer "" 10 15 100)
      (healthy [CtxDone]).
Proof.
  apply (@Run_ignores_input_after_exit jsonDecoders embeddingParser acceptEngine
           (consumer "" 10 15 100) (healthy [CtxDone])
           [Message (record 10 "key" "value") Sent]).
  discriminate.
Defined.

Lemma Run_cancelled_adds_nothing_witness :
  @Run jsonDecoders embeddingParser acceptEngine (consumer "" 10 15 100)
    (withInputs (healthy [])
       ([Message (record 10 "key" "value") Sent]
          ++ CtxDone :: [Message (record 11 "key" "value") Sent]))
  = (fst (@Run jsonDecoders embeddingParser acceptEngine (consumer "" 10 15 100)
            (withInputs (healthy []) [Message (record 10 "key" "value") Sent]))
       ++ Log LogDebug "consume request aborted because context has been cancelled"
       :: deferredClose (healthy []) ++ [Done],
     Returned).
Proof.
  apply (proj2 (proj2 (proj2 (proj2
           (@Run_cancelled_adds_nothing jsonDecoders embeddingParser acceptEngine
              (consumer "" 10 15 100) (healthy [])
              [Message (record 10 "key" "value") Sent]
              [Message (record 11 "key" "value") Sent]))))).
  reflexivity.
Defined.

Lemma Run_channel_closed_reports_witness :
  errors (fst (@Run jsonDecoders embeddingParser acceptEngine (consumer "" 10 15 100)
                 (withInputs (healthy []) [Message (record 10 "key" "value") Sent])))
  = [].
Proof.
  apply (proj2 (@Run_channel_closed_reports jsonDecoders embeddingParser acceptEngine
                  (consumer "" 10 15 100) (healthy [])
                  [Message (record 10 "key" "value") Sent] [] eq_refl)).
Defined.

Lemma Run_nonpositive_maximum_witness :
  @Run jsonDecoders embeddingParser acceptEngine (consumer "" 10 1000 0)
    (healthy (map deliver tenRecords))
  = (flat_map (fun m => @block jsonDecoders m true) tenRecords, Waiting).
Proof.
  refine (proj1 (@Run_nonpositive_maximum jsonDecoders embeddingParser acceptEngine
                   (consumer "" 10 1000 0) (healthy (map deliver tenRecords))
                   AcceptAll (fun _ => true) tenRecords _ _ _ _ _ _) _).
  - simpl. lia.
  - reflexivity.
  - reflexivity.
  - intros m. reflexivity.
  - reflexivity.
  - simpl. lia.
  - intros m Hm. split; [reflexivity|].
    simpl in Hm. repeat (destruct Hm as [<- | Hm]; [simpl; lia|]). contradiction.
Defined.

Lemma Run_without_filter_code_witness :
  @Run jsonDecoders embeddingParser acceptEngine (consumer "" 10 15 100)
    (healthy (map deliver tenRecords))
  = @Run jsonDecoders embeddingParser panicEngine (consumer "" 10 15 100)
      (healthy (map deliver tenRecords)).
Proof.
  apply (proj1 (@Run_without_filter_code jsonDecoders embeddingParser acceptEngine
                  panicEngine (consumer "" 10 15 100)
                  (healthy (map deliver tenRecords)) eq_refl)).
Defined.

(** ** Failures of the evaluation, and the order of the tests *)

Section EvaluationFailures.
Context {D : Decoders} {P : Parser} {E : Otto}.

(** X18: a key or a value that does not parse, an error returned by the
    call of the script, and a call unwound by the timeout each end the
    task at the record: the loop reports the record through [OnError] and
    returns, the record is not sent and no further input is read. *)
Theorem evaluation_failure_is_fatal (p : PartitionConsumer.t)
    (interpreter : otto_Object) (vm : otto_VM) (count : Z)
    (m : ConsumerMessage.t) (s : SendCase) (rest : list SelectCase) :
  (exists msg, Parse (interpreterArguments.Key (filterArguments m)) = Err msg)
  \/ (exists key msg,
         Parse (interpreterArguments.Key (filterArguments m)) = Ok key
         /\ Parse (interpreterArguments.Value (filterArguments m)) = Err msg)
  \/ (exists key value vm',
         Parse (interpreterArguments.Key (filterArguments m)) = Ok key
         /\ Parse (interpreterArguments.Value (filterArguments m)) = Ok value
         /\ ((exists msg, scriptCall interpreter vm (filterArguments m) key value
                          = (CallError msg, vm'))
             \/ scriptCall interpreter vm (filterArguments m) key value
                = (CallPanic (PanicString errTimeout), vm'))) ->
  loop p (Script interpreter vm) count (Message m s :: rest)
  = (filterFailure m, Returned)
  /\ sends (fst (loop p (Script interpreter vm) count (Message m s :: rest))) = []
  /\ List.length (errors (fst (loop p (Script interpreter vm) count
                                 (Message m s :: rest)))) = 1%nat.
Proof.
  intros Hfail.
  assert (Herr : exists isOk msg f',
             callFilter (Script interpreter vm) (filterArguments m)
             = (Return isOk (Some msg), f')).
  { cbn [callFilter]. unfold isMessageOk. unfold scriptCall in Hfail.
    destruct Hfail as [(msg & Hk)
                      | [(key & msg & Hk & Hv)
                        | (key & value & vm' & Hk & Hv & [(msg & Hc) | Hc])]].
    - rewrite Hk. eexists _, _, _. reflexivity.
    - rewrite Hk, Hv. eexists _, _, _. reflexivity.
    - rewrite Hk, Hv, Hc. eexists _, _, _. reflexivity.
    - rewrite Hk, Hv, Hc. eexists _, _, _. reflexivity. }
  destruct Herr as (isOk & msg & f' & Hcall).
  rewrite (loop_filter_error p _ f' count m s rest isOk msg Hcall).
  repeat split.
Qed.

(** X19: the order of the tests of [getValue], first match wins: the type
    is empty exactly for an empty payload, JSON exactly when the first test
    takes the payload, XML exactly when the first does not and the second
    does, binary exactly when neither does and the payload is not valid
    UTF-8, and text in the remaining case of a non-empty payload. *)
Theorem getValue_decision (value : slice) :
  (fst (getValue value) = ""%string <-> data value = [])
  /\ (fst (getValue value) = valueTypeJSON <-> acceptedAsJSON value = true)
  /\ (fst (getValue value) = valueTypeXML
      <-> acceptedAsJSON value = false /\ convertedAsXML value = true)
  /\ (fst (getValue value) = valueTypeBinary
      <-> acceptedAsJSON value = false /\ convertedAsXML value = false
          /\ utf8.Valid (data value) = false)
  /\ (fst (getValue value) = valueTypeText
      <-> data value <> [] /\ acceptedAsJSON value = false
          /\ convertedAsXML value = false /\ utf8.Valid (data value) = true).
Proof.
  split; [|split; [|split; [|split]]].
  - rewrite <- len_zero_iff.
    getValue_cases value; apply Z.eqb_eq in Hlen || apply Z.eqb_neq in Hlen;
      split; intros H; try reflexivity; try assumption;
      try discriminate; contradiction.
  - symmetry. apply acceptedAsJSON_iff.
  - symmetry. apply convertedAsXML_iff.
  - split.
    + intros Hbin.
      destruct (acceptedAsJSON value) eqn:Hj;
        [apply acceptedAsJSON_iff in Hj; rewrite Hj in Hbin; discriminate|].
      destruct (convertedAsXML value) eqn:Hx;
        [rewrite (proj1 (convertedAsXML_iff value) (conj Hj Hx)) in Hbin;
         discriminate|].
      repeat split.
      destruct (utf8.Valid (data value)) eqn:Hutf; [|reflexivity].
      revert Hbin. getValue_cases value; try discriminate.
      all: try (apply TrimLeft_nil_all, whitespace_utf8 in Htrim; congruence).
    + intros (Hj & Hx & Hutf).
      unfold acceptedAsJSON in Hj. unfold convertedAsXML in Hx.
      getValue_cases value; rewrite ?Htrim, ?Hjson, ?Hval, ?Hxml, ?Hconv in *;
        try discriminate; try reflexivity.
      * apply Z.eqb_eq, len_zero_iff in Hlen. rewrite Hlen in Hutf. discriminate.
      * apply TrimLeft_nil_all, whitespace_utf8 in Htrim. congruence.
  - split.
    + intros Htext.
      destruct (acceptedAsJSON value) eqn:Hj;
        [apply acceptedAsJSON_iff in Hj; rewrite Hj in Htext; discriminate|].
      destruct (convertedAsXML value) eqn:Hx;
        [rewrite (proj1 (convertedAsXML_iff value) (conj Hj Hx)) in Htext;
         discriminate|].
      revert Htext. getValue_cases value; try discriminate; intros _.
      all: apply Z.eqb_neq in Hlen; rewrite len_zero_iff in Hlen.
      all: repeat split; try assumption.
      all: try (apply TrimLeft_nil_all, whitespace_utf8 in Htrim; assumption).
    + intros (Hne & Hj & Hx & Hutf).
      unfold acceptedAsJSON in Hj. unfold convertedAsXML in Hx.
      getValue_cases value; rewrite ?Htrim, ?Hjson, ?Hval, ?Hxml, ?Hconv in *;
        try discriminate; try reflexivity.
      apply Z.eqb_eq, len_zero_iff in Hlen. contradiction.
Qed.

End EvaluationFailures.

Lemma evaluation_failure_is_fatal_witness :
  @loop jsonDecoders embeddingParser
    timeoutEngine (consumer "while (true) {}" 10 15 100)
    (@Script embeddingParser timeoutEngine tt tt)
    0 [Message (record 10 "key" "value") Sent; Message (record 11 "key" "value") Sent]
  = (filterFailure (record 10 "key" "value"), Returned).
Proof.
  refine (proj1 (@evaluation_failure_is_fatal jsonDecoders embeddingParser
                   timeoutEngine (consumer "while (true) {}" 10 15 100) tt tt 0
                   (record 10 "key" "value") Sent
                   [Message (record 11 "key" "value") Sent] _)).
  right. right.
  exists (interpreterArguments.Key (@filterArguments jsonDecoders (record 10 "key" "value"))),
         (interpreterArguments.Value (@filterArguments jsonDecoders (record 10 "key" "value"))),
         tt.
  repeat split. right. reflexivity.
Defined.

Lemma getValue_decision_witness :
  @acceptedAsJSON jsonDecoders (B "  [1, 2]") = true.
Proof.
  apply (proj1 (proj1 (proj2 (@getValue_decision jsonDecoders (B "  [1, 2]"))))).
  reflexivity.
Defined.

(* ===================================================================== *)
(** * The two sizes of a record *)
(* ===================================================================== *)

Section RecordSizes.
Context {D : Decoders} {P : Parser} {E : Otto}.

(** Deferred events come after what the function has shown. *)
Lemma fst_defer_app (evs tr1 tr2 : list Event) (o : Outcome) :
  fst (defer evs (tr1 ++ tr2, o)) = tr1 ++ fst (defer evs (tr2, o)).
Proof. unfold defer. destruct o; cbn [fst snd]; now rewrite ?app_assoc. Qed.

Lemma fst_defer_cons (evs : list Event) (e : Event) (tr : list Event) (o : Outcome) :
  fst (defer evs (e :: tr, o)) = e :: fst (defer evs (tr, o)).
Proof. unfold defer. destruct o; reflexivity. Qed.

(** A call leaves the filter with the same script. *)
Lemma callFilter_decides (f f' : Filter) (accept : ConsumerMessage.t -> bool)
    (args : interpreterArguments.t) (r : FilterReturn) :
  callFilter f args = (r, f') -> decides f accept -> decides f' accept.
Proof.
  destruct f as [|interpreter vm]; cbn [callFilter].
  - intros [= _ <-]. exact (fun H => H).
  - destruct (isMessageOk interpreter vm args) as [r0 vm'].
    intros [= _ <-]. exact (fun H => H).
Qed.

(** The loop never starts with a message: a byte count comes first. *)
Lemma loop_starts_without_send (p : PartitionConsumer.t) (f : Filter) (count : Z)
    (inputs : list SelectCase) (tm : TopicMessage.t) (tr : list Event) :
  fst (loop p f count inputs) <> Send tm :: tr.
Proof.
  destruct inputs as [|[m s | |] rest]; cbn [loop]; discriminate.
Qed.

(** What the loop shows of the record it reads: the byte count of key and
    value, then the message built for the record when the filter accepts
    it and the send goes through, and no other message at that place. *)
Lemma loop_record (p : PartitionConsumer.t) (f : Filter) (count : Z)
    (m : ConsumerMessage.t) (s : SendCase) (post : list SelectCase) :
  exists tr,
    fst (loop p f count (Message m s :: post))
    = OnMessageConsumed (int64 (messageSize m)) :: tr
    /\ (forall tm tr', tr = Send tm :: tr' -> tm = topicMessage m)
    /\ (forall f',
           callFilter f (filterArguments m) = (Return true None, f') ->
           s = Sent ->
           exists tr', tr = Send (topicMessage m) :: tr').
Proof.
  cbn [loop]. unfold emit.
  destruct (callFilter f (filterArguments m)) as [[isOK [msg|] | caught] f1];
    cbn [fst snd app].
  - eexists. split; [reflexivity|]. split; [discriminate|]. discriminate.
  - destruct isOK; [destruct s|].
    + cbn [fst snd app]. eexists. split; [reflexivity|]. split.
      * now intros tm tr' [= <- _].
      * intros _ _ _. eexists. reflexivity.
    + eexists. split; [reflexivity|]. split; [discriminate|]. discriminate.
    + eexists. split; [reflexivity|]. split; [|discriminate].
      intros tm tr' Htr.
      destruct (reachedEnd (PartitionConsumer.Req p) m count); [discriminate|].
      now apply loop_starts_without_send in Htr.
  - eexists. split; [reflexivity|]. split; discriminate.
Qed.

(** While the loop waits, it goes on with the input that follows, from a
    state in which the filter has the same script. *)
Lemma loop_waiting_state (p : PartitionConsumer.t) :
  forall (pre : list SelectCase) (f : Filter) (count : Z),
    snd (loop p f count pre) = Waiting ->
    exists f' count',
      (forall post,
          loop p f count (pre ++ post)
          = (fst (loop p f count pre) ++ fst (loop p f' count' post),
             snd (loop p f' count' post)))
      /\ (forall accept, decides f accept -> decides f' accept).
Proof.
  induction pre as [|c pre IH]; intros f count Hwait.
  - exists f, count. split; [|exact (fun _ H => H)].
    intros post. simpl. now destruct (loop p f count post).
  - destruct c as [m s | |]; [|discriminate|discriminate].
    cbn [app loop] in *.
    destruct (callFilter f (filterArguments m)) as [[isOK [msg|] | caught] f1] eqn:Hcall;
      try discriminate.
    destruct isOK; [destruct s|]; try discriminate.
    + destruct (reachedEnd (PartitionConsumer.Req p) m (int64 (count + 1)));
        [discriminate|].
      unfold emit in *. cbn [fst snd] in *.
      destruct (IH f1 (int64 (count + 1)) Hwait) as (f2 & c2 & Happ & Hd).
      exists f2, c2. split.
      * intros post. rewrite Happ. reflexivity.
      * intros accept Hf. apply Hd. exact (callFilter_decides _ _ _ _ _ Hcall Hf).
    + destruct (reachedEnd (PartitionConsumer.Req p) m count); [discriminate|].
      unfold emit in *. cbn [fst snd] in *.
      destruct (IH f1 count Hwait) as (f2 & c2 & Happ & Hd).
      exists f2, c2. split.
      * intros post. rewrite Happ. reflexivity.
      * intros accept Hf. apply Hd. exact (callFilter_decides _ _ _ _ _ Hcall Hf).
Qed.

(** [Run] while its loop waits: what it has shown is what the loop has
    shown, and what it shows of further input is what the loop shows of
    it from the state reached, followed by the deferred calls. *)
Lemma Run_waiting_state (p : PartitionConsumer.t) (w : World) (pre : list SelectCase) :
  snd (Run p (withInputs w pre)) = Waiting ->
  exists f f' count',
    SetupInterpreter p = Ok f
    /\ (forall accept, decides f accept -> decides f' accept)
    /\ forall post,
         fst (Run p (withInputs w (pre ++ post)))
         = fst (Run p (withInputs w pre))
             ++ fst (defer [Done] (defer (deferredClose w) (loop p f' count' post))).
Proof.
  unfold Run, consume, withInputs. cbn [consumeErr closeErr selects].
  rewrite snd_defer.
  destruct (consumeErr w); [discriminate|].
  rewrite snd_defer. destruct (SetupInterpreter p) as [f|]; [|discriminate].
  intros Hwait. destruct (loop_waiting_state p pre f 0 Hwait) as (f' & c' & Happ & Hd).
  exists f, f', c'. split; [reflexivity|]. split; [exact Hd|].
  intros post. rewrite Happ.
  unfold deferredClose at 1 2 3. cbn [closeErr]. fold (deferredClose w).
  destruct (loop p f 0 pre) as [tr0 o0]. cbn [snd] in Hwait. subst o0.
  rewrite !defer_waiting. cbn [fst].
  destruct (loop p f' c' post) as [tr1 o1]. cbn [fst snd].
  unfold defer. destruct o1; cbn [fst snd]; rewrite <- ?app_assoc; reflexivity.
Qed.

(** C10: for every record the loop of [Run] reads, the byte count given to
    the progress sink is [len(key) + len(value)]: it is the next event of
    the execution.  The message built for the record has
    [Size = len(value)]: it is the message sent next when the filter
    accepts the record and the send goes through, and no other message
    is sent at that place.  The two sizes differ as soon as the key is
    not empty. *)
Theorem Run_size_excludes_key (p : PartitionConsumer.t) (w : World)
    (pre post : list SelectCase) (m : ConsumerMessage.t) (s : SendCase) :
  len (ConsumerMessage.Key m) + len (ConsumerMessage.Value m) < 2 ^ 63 ->
  snd (Run p (withInputs w pre)) = Waiting ->
  (exists tr,
      fst (Run p (withInputs w (pre ++ Message m s :: post)))
      = fst (Run p (withInputs w pre))
          ++ OnMessageConsumed (len (ConsumerMessage.Key m)
                                + len (ConsumerMessage.Value m)) :: tr
      /\ (forall tm tr', tr = Send tm :: tr' -> tm = topicMessage m)
      /\ (forall f accept,
             SetupInterpreter p = Ok f ->
             decides f accept ->
             accept m = true ->
             s = Sent ->
             exists tr', tr = Send (topicMessage m) :: tr'))
  /\ (forall f count,
         exists tr,
           fst (loop p f count (Message m s :: post))
           = OnMessageConsumed (len (ConsumerMessage.Key m)
                                + len (ConsumerMessage.Value m)) :: tr
           /\ (forall tm tr', tr = Send tm :: tr' -> tm = topicMessage m)
           /\ (forall f',
                  callFilter f (filterArguments m) = (Return true None, f') ->
                  s = Sent ->
                  exists tr', tr = Send (topicMessage m) :: tr'))
  /\ TopicMessage.Size (topicMessage m) = len (ConsumerMessage.Value m)
  /\ (data (ConsumerMessage.Key m) <> [] ->
      TopicMessage.Size (topicMessage m)
      <> len (ConsumerMessage.Key m) + len (ConsumerMessage.Value m)).
Proof.
  intros Hsize Hwait.
  assert (Hcount : int64 (messageSize m)
                   = len (ConsumerMessage.Key m) + len (ConsumerMessage.Value m)).
  { unfold messageSize. apply int64_small. unfold len in *. lia. }
  split; [|split; [|split]].
  - destruct (Run_waiting_state p w pre Hwait) as (f & f' & c' & Hsetup & Hd & Happ).
    destruct (loop_record p f' c' m s post) as (tr & Htr & Honly & Hsend).
    rewrite Happ.
    destruct (loop p f' c' (Message m s :: post)) as [tr0 o] eqn:Hloop.
    cbn [fst] in Htr. subst tr0. rewrite Hcount.
    exists (fst (defer [Done] (defer (deferredClose w) (tr, o)))).
    split; [|split].
    + unfold defer. destruct o; reflexivity.
    + intros tm tr' Hnext. destruct tr as [|e tr].
      * unfold defer, deferredClose in Hnext. destruct o; discriminate.
      * apply (Honly tm tr).
        unfold defer in Hnext. destruct o; cbn [fst snd app] in Hnext;
          now injection Hnext as ->.
    + intros f0 accept Hf0 Hdec Hacc ->.
      rewrite Hsetup in Hf0. injection Hf0 as <-.
      destruct (decides_call f' accept m (Hd accept Hdec)) as (f2 & Hcall & _).
      rewrite Hacc in Hcall.
      destruct (Hsend f2 Hcall eq_refl) as (tr' & ->).
      unfold defer. destruct o; cbn [fst snd app]; eexists; reflexivity.
  - intros f count. rewrite <- Hcount. apply loop_record.
  - apply topicMessage_Size.
  - rewrite topicMessage_Size. intros Hkey. unfold len.
    destruct (data (ConsumerMessage.Key m)); [contradiction|].
    cbn [List.length]. lia.
Qed.

End RecordSizes.

(** After the record at offset 10, the record at offset 11, with the key
    [key] of three bytes and the value [value] of five: the byte count
    reported is 8, the message sent has the size 5. *)
Lemma Run_size_excludes_key_witness :
  let p := consumer "return true" 10 1000 100 in
  let r10 := record 10 "key" "value" in
  let r11 := record 11 "key" "value" in
  exists tr,
    fst (@Run jsonDecoders embeddingParser acceptEngine p
           (withInputs (healthy []) ([deliver r10] ++ [deliver r11])))
    = fst (@Run jsonDecoders embeddingParser acceptEngine p
             (withInputs (healthy []) [deliver r10]))
        ++ OnMessageConsumed 8 :: Send (@topicMessage jsonDecoders r11) :: tr
    /\ TopicMessage.Size (@topicMessage jsonDecoders r11) = 5.
Proof.
  intros p r10 r11.
  pose proof (@Run_size_excludes_key jsonDecoders embeddingParser acceptEngine
                p (healthy []) [deliver r10] [] r11 Sent
                ltac:(vm_compute; reflexivity) eq_refl) as H.
  destruct H as ((tr & Htr & _ & Hsend) & _ & Hsz & _).
  destruct (Hsend (@Script embeddingParser acceptEngine tt tt) (fun _ => true)
              eq_refl (fun _ _ => eq_refl) eq_refl eq_refl) as (tr' & ->).
  exists tr'. split; [exact Htr | exact Hsz].
Defined.
